(** * Account UTXO index of the wallet (blockchain/wallet/indexer.go)
      and the annotated-output projection (package query).

    Shallow embedding.  Go byte slices and the strings made from them
    ([string(out.ControlProgram)], [string(id.Bytes())]) are Rocq strings;
    a [bc.Hash] is represented by its 32 bytes; unsigned integers are [Z].
    Maps are stdpp [gmap]s.  A Go pointer that the code dereferences without
    a check is a plain value here. *)

From Stdlib Require Import Ascii.
From stdpp Require Import gmap strings list fin_maps pretty.

Abbreviation Hash := string (only parsing).

(** ** Errors (package errors) *)

Inductive error :=
  | ErrorString (s : string)
  | Wrap (err : error) (msg : string).

(** ** Ledger entries (package protocol/bc) *)

Module bc.

Record AssetAmount := { AssetId : Hash; Amount : Z }.

Record ValueSource := { Ref : Hash; Value : AssetAmount; Position : Z }.

Record Program := { VmVersion : Z; Code : string }.

Record Output := { Source : ValueSource; ControlProgram : Program; Data : Hash }.

Record Spend := { SpentOutputId : Hash }.

(** The entry graph is a map from entry id to an entry of one of several
    variants; the indexer tells them apart with type assertions. *)
Inductive Entry :=
  | OutputEntry (o : Output)
  | SpendEntry (sp : Spend)
  | IssuanceEntry
  | RetirementEntry
  | OtherEntry.

Record Tx := {
  ID : Hash;
  Entries : gmap string Entry;
  InputIDs : list Hash;
  ResultIds : list Hash }.

(** Modelled from the spec: the method [Spend] of [bc.Tx] is not among the sources.
    "every spend-type input resolves to the entry it consumes";
    "Issuance-type inputs do not resolve as spends": the entry stored
    under the id is returned when it is a spend, an error otherwise. *)
Definition Tx_Spend (tx : Tx) (id : Hash) : Spend + error :=
  match Entries tx !! id with
  | Some (SpendEntry sp) => inl sp
  | Some _ => inr (ErrorString "unexpected entry type")
  | None => inr (ErrorString "missing entry")
  end.

End bc.

(** ** Transactions and blocks (package protocol/bc/legacy) *)

Module legacy.

Record TxOutput := {
  AssetAmount : bc.AssetAmount;
  ControlProgram : string;
  ReferenceData : string }.

(** [legacy.Tx] embeds the transaction data and a pointer to a [bc.Tx]. *)
Record Tx := {
  Outputs : list TxOutput;
  bcTx : bc.Tx }.

(** Modelled from the spec: the method [OutputID] of [legacy.Tx] is not
    among the sources.  The record of a created output is "keyed by OutputID" and
    reversal deletes it under the result id at the same position, so the
    output id of position [j] is the [j]-th result id; [None] stands for
    the index-out-of-range panic. *)
Definition OutputID (tx : Tx) (j : nat) : option Hash :=
  bc.ResultIds (bcTx tx) !! j.

Record Block := { Transactions : list Tx }.

End legacy.

(** ** Account store (package blockchain/account) *)

Module account.

(** Modelled from the spec: the key constructors are not among the
    sources.  A persisted record lives "under a key derived
    deterministically and exclusively from OutputID (collision-free ...)",
    a registry record is "keyed by hash(ControlProgramBytes)", and the
    account entries form a third family; the three families are kept
    apart by their tag. *)
Inductive Key :=
  | AccountKey (name : string)
  | AccountCPKey (hash : string)
  | AccountUTXOKey (id : string).

#[global] Instance Key_eq_dec : EqDecision Key.
Proof. solve_decision. Defined.

Definition Key_to_sum (k : Key) : string + (string + string) :=
  match k with
  | AccountKey s => inl s
  | AccountCPKey h => inr (inl h)
  | AccountUTXOKey i => inr (inr i)
  end.

Definition Key_of_sum (x : string + (string + string)) : Key :=
  match x with
  | inl s => AccountKey s
  | inr (inl h) => AccountCPKey h
  | inr (inr i) => AccountUTXOKey i
  end.

#[global] Instance Key_countable : Countable Key.
Proof. apply (inj_countable' Key_to_sum Key_of_sum). by intros []. Defined.

(** The registry record; only the fields the indexer reads. *)
Record CtrlProgram := {
  cpAccountID : string;
  cpKeyIndex : Z;
  cpChange : bool }.

(** [account.CtrlProgram{}] *)
Definition CtrlProgram_zero : CtrlProgram :=
  {| cpAccountID := EmptyString; cpKeyIndex := 0; cpChange := false |}.

Record UTXO := {
  OutputID : string;
  AssetID : string;
  Amount : Z;
  AccountID : string;
  ProgramIndex : Z;
  Program : string;
  SourceID : string;
  SourcePos : Z;
  RefData : string;
  Change : bool }.

End account.

(** ** The key-value store and its write batch (package tmlibs/db) *)

Module db.

Inductive Op :=
  | Set_ (key : account.Key) (value : string)
  | Delete (key : account.Key).

(** Modelled from the spec: the batch is "an ordered collection of
    key-set / key-delete operations committed atomically by the caller";
    "Deleting an absent key is a no-op, not an error". *)
Definition apply (m : gmap account.Key string) (op : Op) : gmap account.Key string :=
  match op with
  | Set_ k v => <[k := v]> m
  | Delete k => delete k m
  end.

Definition Write (batch : list Op) (m : gmap account.Key string) : gmap account.Key string :=
  foldl apply m batch.

End db.

(** ** The indexer (package blockchain/wallet) *)

Module wallet.

Record rawOutput := {
  OutputID : Hash;
  AssetAmount : bc.AssetAmount;
  ControlProgram : string;
  txHash : Hash;
  outputIndex : Z;
  sourceID : Hash;
  sourcePos : Z;
  refData : Hash }.

Record accountOutput := {
  raw : rawOutput;
  AccountID : string;
  keyIndex : Z;
  change : bool }.

Record Wallet := { DB : gmap account.Key string }.

(** One line written through logrus: the [err] field and the message. *)
Record LogEntry := { logErr : error; logMsg : string }.

(** What a call leaves behind: the batch it was handed, with the
    operations it appended, and the lines it logged. *)
Record State := { batch : list db.Op; log : list LogEntry }.

(** [BuildAccountUTXOs] and [ReverseAccountUTXOs] have no result value:
    a call either returns, leaving a state, or panics on an index out of
    range. *)
Inductive Outcome :=
  | Returns (st : State)
  | Panics.

(** All the caller holds after a call is the batch. *)
Definition callerView (o : Outcome) : option (list db.Op) :=
  match o with
  | Returns st => Some (batch st)
  | Panics => None
  end.

(** [uint32(j)] *)
Definition uint32 (j : nat) : Z := Z.of_nat j `mod` 2 ^ 32.

(** [prevoutDBKeys] *)
Definition prevoutDBKeys (txs : list legacy.Tx) : list Hash :=
  flat_map (λ tx,
    omap (λ inpID,
      match bc.Tx_Spend (legacy.bcTx tx) inpID with
      | inl sp => Some (bc.SpentOutputId sp)
      | inr _ => None
      end) (bc.InputIDs (legacy.bcTx tx))) txs.

(** [ReverseAccountUTXOs], first loop ("handle spent UTXOs"): the body for
    one input id. *)
Definition reverseOut (tx : legacy.Tx) (inpID : Hash) : option rawOutput :=
  match bc.Tx_Spend (legacy.bcTx tx) inpID with
  | inr _ => None
  | inl sp =>
    match bc.Entries (legacy.bcTx tx) !! bc.SpentOutputId sp with
    | Some (bc.OutputEntry resOut) =>
      Some {| OutputID := bc.SpentOutputId sp;
              AssetAmount := bc.Value (bc.Source resOut);
              ControlProgram := bc.Code (bc.ControlProgram resOut);
              txHash := bc.ID (legacy.bcTx tx);
              outputIndex := 0;
              sourceID := bc.Ref (bc.Source resOut);
              sourcePos := bc.Position (bc.Source resOut);
              refData := bc.Data resOut |}
    | _ => None
    end
  end.

Definition reverseOuts (txs : list legacy.Tx) : list rawOutput :=
  flat_map (λ tx, omap (reverseOut tx) (bc.InputIDs (legacy.bcTx tx))) txs.

(** [BuildAccountUTXOs], second loop ("handle new UTXOs"): the outputs of
    one transaction from position [j] on.  [None] is the panic of
    [tx.ResultIds[j]] out of range. *)
Fixpoint txNewOuts (tx : legacy.Tx) (j : nat) (outputs : list legacy.TxOutput)
    : option (list rawOutput) :=
  match outputs with
  | [] => Some []
  | out :: outputs' =>
    match bc.ResultIds (legacy.bcTx tx) !! j with
    | None => None
    | Some resOutID =>
      match bc.Entries (legacy.bcTx tx) !! resOutID with
      | Some (bc.OutputEntry resOut) =>
        match legacy.OutputID tx j with
        | None => None
        | Some outputID =>
          rest ← txNewOuts tx (S j) outputs';
          Some ({| OutputID := outputID;
                   AssetAmount := legacy.AssetAmount out;
                   ControlProgram := legacy.ControlProgram out;
                   txHash := bc.ID (legacy.bcTx tx);
                   outputIndex := uint32 j;
                   sourceID := bc.Ref (bc.Source resOut);
                   sourcePos := bc.Position (bc.Source resOut);
                   refData := bc.Data resOut |} :: rest)
        end
      | _ => txNewOuts tx (S j) outputs'
      end
    end
  end.

Fixpoint newOuts (txs : list legacy.Tx) : option (list rawOutput) :=
  match txs with
  | [] => Some []
  | tx :: txs' =>
    outs ← txNewOuts tx 0 (legacy.Outputs tx);
    rest ← newOuts txs';
    Some (outs ++ rest)
  end.

(** [ReverseAccountUTXOs], last loop ("handle new UTXOs"): the deletes
    for one transaction from position [j] on. *)
Fixpoint txDeleteNew (tx : legacy.Tx) (j : nat) (outputs : list legacy.TxOutput)
    (batch : list db.Op) : option (list db.Op) :=
  match outputs with
  | [] => Some batch
  | _ :: outputs' =>
    match bc.ResultIds (legacy.bcTx tx) !! j with
    | None => None
    | Some resOutID =>
      match bc.Entries (legacy.bcTx tx) !! resOutID with
      | Some (bc.OutputEntry _) =>
        txDeleteNew tx (S j) outputs'
          (batch ++ [db.Delete (account.AccountUTXOKey resOutID)])
      | _ => txDeleteNew tx (S j) outputs' batch
      end
    end
  end.

Fixpoint deleteNew (txs : list legacy.Tx) (batch : list db.Op) : option (list db.Op) :=
  match txs with
  | [] => Some batch
  | tx :: txs' =>
    batch' ← txDeleteNew tx 0 (legacy.Outputs tx) batch;
    deleteNew txs' batch'
  end.

(** [loadAccountInfo], first loop: group the outputs by script. *)
Definition groupByScript (outs : list rawOutput) : gmap string (list rawOutput) :=
  foldl (λ outsByScript out,
           let scriptStr := ControlProgram out in
           <[scriptStr := default [] (outsByScript !! scriptStr) ++ [out]]> outsByScript)
        ∅ outs.

(** [for s := range outsByScript] visits every key once, in an order the
    language leaves unspecified and that may change from one loop to the
    next; the order is an argument of the model. *)
Definition rangeOrder (outsByScript : gmap string (list rawOutput)) (order : list string) : Prop :=
  NoDup order ∧ list_to_set order = dom outsByScript.

Section codec.

(** [sha3pool.Sum256] *)
Variable Sum256 : string → string.

(** [json.Unmarshal(bytes, &cp)]: decoding writes into the [cp] it is
    handed and reports an error or [nil]. *)
Variable Unmarshal : string → account.CtrlProgram → account.CtrlProgram * option error.

(** [json.Marshal(u)] *)
Variable Marshal : account.UTXO → string + error.

(** [loadAccountInfo], body of the second loop for one script [s].  The
    variable [cp] is declared before the loop and lives across its
    iterations, so it is part of the loop state with [result]. *)
Definition resolveScript (w : Wallet) (outsByScript : gmap string (list rawOutput))
    (st : account.CtrlProgram * list accountOutput) (s : string)
    : account.CtrlProgram * list accountOutput :=
  let '(cp, result) := st in
  let hash := Sum256 s in
  match DB w !! account.AccountCPKey hash with
  | None => (cp, result)
  | Some bytes =>
    let '(cp, err) := Unmarshal bytes cp in
    match err with
    | Some _ => (cp, result)
    | None =>
      match DB w !! account.AccountKey (account.cpAccountID cp) with
      | None => (cp, result)
      | Some _ =>
        (cp, result ++
             map (λ out, {| raw := out;
                            AccountID := account.cpAccountID cp;
                            keyIndex := account.cpKeyIndex cp;
                            change := account.cpChange cp |})
                 (default [] (outsByScript !! s)))
      end
    end
  end.

Definition resolveLoop (w : Wallet) (outsByScript : gmap string (list rawOutput))
    (order : list string) (st : account.CtrlProgram * list accountOutput)
    : account.CtrlProgram * list accountOutput :=
  foldl (resolveScript w outsByScript) st order.

Definition loadAccountInfo (order : list string) (w : Wallet) (outs : list rawOutput)
    : list accountOutput :=
  let outsByScript := groupByScript outs in
  (resolveLoop w outsByScript order (account.CtrlProgram_zero, [])).2.

(** The record built for one output in [upsertConfirmedAccountOutputs]. *)
Definition utxoOf (out : accountOutput) : account.UTXO :=
  {| account.OutputID := OutputID (raw out);
     account.AssetID := bc.AssetId (AssetAmount (raw out));
     account.Amount := bc.Amount (AssetAmount (raw out));
     account.AccountID := AccountID out;
     account.ProgramIndex := keyIndex out;
     account.Program := ControlProgram (raw out);
     account.SourceID := sourceID (raw out);
     account.SourcePos := sourcePos (raw out);
     account.RefData := refData (raw out);
     account.Change := change out |}.

(** [upsertConfirmedAccountOutputs]: the batch after the call and the
    error returned ([None] for [nil]). *)
Fixpoint upsertConfirmedAccountOutputs (outs : list accountOutput) (block : legacy.Block)
    (batch : list db.Op) : list db.Op * option error :=
  match outs with
  | [] => (batch, None)
  | out :: outs' =>
    let u := utxoOf out in
    match Marshal u with
    | inr err => (batch, Some (Wrap err "failed marshal accountutxo"))
    | inl rawUTXO =>
      upsertConfirmedAccountOutputs outs' block
        (batch ++ [db.Set_ (account.AccountUTXOKey (account.OutputID u)) rawUTXO])
    end
  end.

(** [BuildAccountUTXOs] *)
Definition BuildAccountUTXOs (order : list string) (w : Wallet) (batch : list db.Op)
    (b : legacy.Block) : Outcome :=
  let delOutputIDs := prevoutDBKeys (legacy.Transactions b) in
  let batch :=
    foldl (λ batch delOutputID, batch ++ [db.Delete (account.AccountUTXOKey delOutputID)])
          batch delOutputIDs in
  match newOuts (legacy.Transactions b) with
  | None => Panics
  | Some outs =>
    let accOuts := loadAccountInfo order w outs in
    match upsertConfirmedAccountOutputs accOuts b batch with
    | (batch, Some err) =>
      Returns {| batch := batch;
                 log := [{| logErr := err; logMsg := "building new account outputs" |}] |}
    | (batch, None) => Returns {| batch := batch; log := [] |}
    end
  end.

(** [ReverseAccountUTXOs] *)
Definition ReverseAccountUTXOs (order : list string) (w : Wallet) (batch : list db.Op)
    (b : legacy.Block) : Outcome :=
  let reverseOuts := reverseOuts (legacy.Transactions b) in
  let accOuts := loadAccountInfo order w reverseOuts in
  match upsertConfirmedAccountOutputs accOuts b batch with
  | (batch, Some err) =>
    Returns {| batch := batch;
               log := [{| logErr := err;
                          logMsg := "reversing account spent and retire outputs" |}] |}
  | (batch, None) =>
    match deleteNew (legacy.Transactions b) batch with
    | None => Panics
    | Some batch => Returns {| batch := batch; log := [] |}
    end
  end.

End codec.

End wallet.


(** ** The annotated-output projection (package blockchain/query) *)

Module query.

(** A field of pointer type is an [option]; [None] is [nil]. *)
Record AnnotatedOutput := {
  Type_ : string;
  OutputID : Hash;
  TransactionID : option Hash;
  Position : Z;
  AssetID : Hash;
  AssetAlias : string;
  AssetDefinition : option string;
  AssetTags : option string;
  Amount : Z;
  AccountID : string;
  AccountAlias : string;
  AccountTags : option string;
  ControlProgram : string;
  ReferenceData : option string }.

(** [out.ReferenceData = &referenceData] *)
Definition setReferenceData (out : AnnotatedOutput) (p : option string) : AnnotatedOutput :=
  {| Type_ := Type_ out; OutputID := OutputID out; TransactionID := TransactionID out;
     Position := Position out; AssetID := AssetID out; AssetAlias := AssetAlias out;
     AssetDefinition := AssetDefinition out; AssetTags := AssetTags out;
     Amount := Amount out; AccountID := AccountID out; AccountAlias := AccountAlias out;
     AccountTags := AccountTags out; ControlProgram := ControlProgram out;
     ReferenceData := p |}.

(** [out.Type = t] *)
Definition setType (out : AnnotatedOutput) (t : string) : AnnotatedOutput :=
  {| Type_ := t; OutputID := OutputID out; TransactionID := TransactionID out;
     Position := Position out; AssetID := AssetID out; AssetAlias := AssetAlias out;
     AssetDefinition := AssetDefinition out; AssetTags := AssetTags out;
     Amount := Amount out; AccountID := AccountID out; AccountAlias := AccountAlias out;
     AccountTags := AccountTags out; ControlProgram := ControlProgram out;
     ReferenceData := ReferenceData out |}.

Definition emptyJSONObject : string := "{}".

Section deps.

(** [vmutil.IsUnspendable], the unspendable-script predicate. *)
Variable IsUnspendable : string → bool.

(** [json.Unmarshal(b, &v)] for [v] of type [interface{}]: the error it
    reports, [None] for [nil]. *)
Variable Unmarshal : string → option error.

(** [IsValidJSON] *)
Definition IsValidJSON (b : string) : bool :=
  let err := Unmarshal b in
  match err with
  | None => true
  | Some _ => false
  end.

(** [buildAnnotatedOutput]; [None] is the panic of an index out of range. *)
Definition buildAnnotatedOutput (tx : legacy.Tx) (idx : nat) : option AnnotatedOutput :=
  orig ← legacy.Outputs tx !! idx;
  outid ← legacy.OutputID tx idx;
  let out :=
    {| Type_ := EmptyString;
       OutputID := outid;
       TransactionID := None;
       Position := Z.of_nat idx;
       AssetID := bc.AssetId (legacy.AssetAmount orig);
       AssetAlias := EmptyString;
       AssetDefinition := Some emptyJSONObject;
       AssetTags := Some emptyJSONObject;
       Amount := bc.Amount (legacy.AssetAmount orig);
       AccountID := EmptyString;
       AccountAlias := EmptyString;
       AccountTags := None;
       ControlProgram := legacy.ControlProgram orig;
       ReferenceData := Some emptyJSONObject |} in
  let out :=
    if IsValidJSON (legacy.ReferenceData orig)
    then let referenceData := legacy.ReferenceData orig in
         setReferenceData out (Some referenceData)
    else out in
  let out :=
    if IsUnspendable (ControlProgram out)
    then setType out "retire"
    else setType out "control" in
  Some out.

(** [BuildAnnotatedTransaction], the loop that fills [tx.Outputs]. *)
Definition annotatedOutputs (orig : legacy.Tx) : option (list AnnotatedOutput) :=
  mapM (buildAnnotatedOutput orig) (seq 0 (length (legacy.Outputs orig))).

End deps.

End query.

(** ** The projection, continued: the Bool type, annotated inputs and the
    annotated transaction (package blockchain/query) *)

Module projection.

(** The two JSON texts of [Bool]: yes and no between double quotes. *)
Definition yes : string := String "034"%char ("yes" +:+ String "034"%char EmptyString).

Definition no : string := String "034"%char ("no" +:+ String "034"%char EmptyString).

(** [Bool.MarshalJSON] *)
Definition Bool_MarshalJSON (b : bool) : string * option error :=
  if b then (yes, None) else (no, None).

(** [Bool.UnmarshalJSON]: the value left in the receiver and the error. *)
Definition Bool_UnmarshalJSON (b : bool) (raw : string) : bool * option error :=
  let b := false in
  let b := if bool_decide (raw = yes) then true else b in
  (b, None).

(** An input of a [legacy.Tx]: its reference data and what its accessor
    methods [AssetID], [Amount], [ControlProgram] and [IssuanceProgram]
    return. *)
Record TxInput := {
  inReferenceData : string;
  inAssetID : Hash;
  inAmount : Z;
  inControlProgram : string;
  inIssuanceProgram : string }.

(** A [legacy.Tx] with the two fields of its transaction data that only the
    projection reads. *)
Record Tx := {
  legacyTx : legacy.Tx;
  Inputs : list TxInput;
  ReferenceData : string }.

Record AnnotatedInput := {
  Type_ : string;
  AssetID : Hash;
  AssetAlias : string;
  AssetDefinition : option string;
  AssetTags : option string;
  Amount : Z;
  IssuanceProgram : string;
  ControlProgram : string;
  SpentOutputID : option Hash;
  AccountID : string;
  AccountAlias : string;
  AccountTags : option string;
  InReferenceData : option string }.

(** [in.ReferenceData = &referenceData] *)
Definition setReferenceData (i : AnnotatedInput) (p : option string) : AnnotatedInput :=
  {| Type_ := Type_ i; AssetID := AssetID i; AssetAlias := AssetAlias i;
     AssetDefinition := AssetDefinition i; AssetTags := AssetTags i; Amount := Amount i;
     IssuanceProgram := IssuanceProgram i; ControlProgram := ControlProgram i;
     SpentOutputID := SpentOutputID i; AccountID := AccountID i;
     AccountAlias := AccountAlias i; AccountTags := AccountTags i;
     InReferenceData := p |}.

(** The three assignments of the [*bc.Spend] case. *)
Definition setSpend (i : AnnotatedInput) (controlProgram : string) (spentOutputID : Hash)
    : AnnotatedInput :=
  {| Type_ := "spend"; AssetID := AssetID i; AssetAlias := AssetAlias i;
     AssetDefinition := AssetDefinition i; AssetTags := AssetTags i; Amount := Amount i;
     IssuanceProgram := IssuanceProgram i; ControlProgram := controlProgram;
     SpentOutputID := Some spentOutputID; AccountID := AccountID i;
     AccountAlias := AccountAlias i; AccountTags := AccountTags i;
     InReferenceData := InReferenceData i |}.

(** The two assignments of the [*bc.Issuance] case. *)
Definition setIssue (i : AnnotatedInput) (issuanceProgram : string) : AnnotatedInput :=
  {| Type_ := "issue"; AssetID := AssetID i; AssetAlias := AssetAlias i;
     AssetDefinition := AssetDefinition i; AssetTags := AssetTags i; Amount := Amount i;
     IssuanceProgram := issuanceProgram; ControlProgram := ControlProgram i;
     SpentOutputID := SpentOutputID i; AccountID := AccountID i;
     AccountAlias := AccountAlias i; AccountTags := AccountTags i;
     InReferenceData := InReferenceData i |}.

Record AnnotatedTx := {
  ID : Hash;
  Timestamp : Z;
  BlockID : Hash;
  BlockHeight : Z;
  Position : Z;
  BlockTransactionsCount : Z;
  TxReferenceData : option string;
  AnnotatedInputs : list AnnotatedInput;
  AnnotatedOutputs : list query.AnnotatedOutput }.

Section deps.

(** [vmutil.IsUnspendable] and [json.Unmarshal] into an [interface{}], as
    in module [query]. *)
Variable IsUnspendable : string → bool.
Variable Unmarshal : string → option error.

(** [b.Time()], [b.Hash()] and [b.Height] of a block. *)
Variable Time : legacy.Block → Z.
Variable BlockHash : legacy.Block → Hash.
Variable Height : legacy.Block → Z.

(** [buildAnnotatedInput]; the index is a [uint32]; [None] is the panic of
    an index out of range. *)
Definition buildAnnotatedInput (tx : Tx) (i : Z) : option AnnotatedInput :=
  orig ← Inputs tx !! Z.to_nat i;
  let in_ :=
    {| Type_ := EmptyString;
       AssetID := inAssetID orig;
       AssetAlias := EmptyString;
       AssetDefinition := Some query.emptyJSONObject;
       AssetTags := Some query.emptyJSONObject;
       Amount := inAmount orig;
       IssuanceProgram := EmptyString;
       ControlProgram := EmptyString;
       SpentOutputID := None;
       AccountID := EmptyString;
       AccountAlias := EmptyString;
       AccountTags := None;
       InReferenceData := Some query.emptyJSONObject |} in
  let in_ :=
    if query.IsValidJSON Unmarshal (inReferenceData orig)
    then let referenceData := inReferenceData orig in
         setReferenceData in_ (Some referenceData)
    else in_ in
  id ← bc.InputIDs (legacy.bcTx (legacyTx tx)) !! Z.to_nat i;
  let e := bc.Entries (legacy.bcTx (legacyTx tx)) !! id in
  Some match e with
       | Some (bc.SpendEntry e) => setSpend in_ (inControlProgram orig) (bc.SpentOutputId e)
       | Some bc.IssuanceEntry => setIssue in_ (inIssuanceProgram orig)
       | _ => in_
       end.

(** [BuildAnnotatedTransaction] *)
Definition BuildAnnotatedTransaction (orig : Tx) (b : legacy.Block) (indexInBlock : Z)
    : option AnnotatedTx :=
  let referenceData :=
    if query.IsValidJSON Unmarshal (ReferenceData orig)
    then Some (ReferenceData orig)
    else Some query.emptyJSONObject in
  inputs ← mapM (λ i, buildAnnotatedInput orig (wallet.uint32 i))
                (seq 0 (length (Inputs orig)));
  outputs ← mapM (query.buildAnnotatedOutput IsUnspendable Unmarshal (legacyTx orig))
                 (seq 0 (length (legacy.Outputs (legacyTx orig))));
  Some {| ID := bc.ID (legacy.bcTx (legacyTx orig));
          Timestamp := Time b;
          BlockID := BlockHash b;
          BlockHeight := Height b;
          Position := indexInBlock;
          BlockTransactionsCount := wallet.uint32 (length (legacy.Transactions b));
          TxReferenceData := referenceData;
          AnnotatedInputs := inputs;
          AnnotatedOutputs := outputs |}.

End deps.

End projection.

(** * Vocabulary of the statements *)

Import wallet.

Definition opKey (op : db.Op) : account.Key :=
  match op with
  | db.Set_ k _ => k
  | db.Delete k => k
  end.

Definition isDelete (op : db.Op) : Prop :=
  match op with
  | db.Delete _ => True
  | db.Set_ _ _ => False
  end.

Definition delOp (id : Hash) : db.Op := db.Delete (account.AccountUTXOKey id).

Definition setOp (id : Hash) (rawUTXO : string) : db.Op :=
  db.Set_ (account.AccountUTXOKey id) rawUTXO.

(** No transaction has more outputs than result ids, so that
    [tx.ResultIds[j]] is in range for every output position [j]. *)
Definition wellFormed (b : legacy.Block) : Prop :=
  ∀ tx, tx ∈ legacy.Transactions b →
        length (legacy.Outputs tx) ≤ length (bc.ResultIds (legacy.bcTx tx)).

(** The raw output extracted for position [j] of [tx], whose result entry
    is the output entry [resOut]. *)
Definition newOut (tx : legacy.Tx) (j : nat) (out : legacy.TxOutput) (outputID : Hash)
    (resOut : bc.Output) : rawOutput :=
  {| OutputID := outputID;
     AssetAmount := legacy.AssetAmount out;
     ControlProgram := legacy.ControlProgram out;
     txHash := bc.ID (legacy.bcTx tx);
     outputIndex := uint32 j;
     sourceID := bc.Ref (bc.Source resOut);
     sourcePos := bc.Position (bc.Source resOut);
     refData := bc.Data resOut |}.

(** Output ids are content hashes: two extracted outputs with one id carry
    one script. *)
Definition contentAddressed (outs : list rawOutput) : Prop :=
  ∀ ro1 ro2, ro1 ∈ outs → ro2 ∈ outs → OutputID ro1 = OutputID ro2 →
             ControlProgram ro1 = ControlProgram ro2.

Section vocabulary.

Variable Sum256 : string → string.
Variable Unmarshal : string → account.CtrlProgram → account.CtrlProgram * option error.

(** The annotation [loadAccountInfo] attaches from the decoded [cp]. *)
Definition annotate (cp : account.CtrlProgram) (out : rawOutput) : accountOutput :=
  {| raw := out;
     AccountID := account.cpAccountID cp;
     keyIndex := account.cpKeyIndex cp;
     change := account.cpChange cp |}.

(** Script [s] passes the three checks of the loop body when decoding
    starts from [cp0], and leaves [cp1]. *)
Definition resolves (w : Wallet) (s : string) (cp0 cp1 : account.CtrlProgram) : Prop :=
  ∃ bytes, DB w !! account.AccountCPKey (Sum256 s) = Some bytes
           ∧ Unmarshal bytes cp0 = (cp1, None)
           ∧ is_Some (DB w !! account.AccountKey (account.cpAccountID cp1)).

(** With every script visited once, the outputs of one script all carry the
    annotation of one decoded record. *)
Definition coherent (w : Wallet) (res : list accountOutput) : Prop :=
  ∀ ao1, ao1 ∈ res →
    ∃ cp0 cp1, resolves w (ControlProgram (raw ao1)) cp0 cp1
      ∧ ∀ ao2, ao2 ∈ res → ControlProgram (raw ao2) = ControlProgram (raw ao1) →
               ao2 = annotate cp1 (raw ao2).

End vocabulary.

(** * Sample data

    A registry with three records, one account, and a few blocks. *)

Module ex.

(** A stand-in for the hash of a script. *)
Definition Sum256 (s : string) : string := "sha3:" +:+ s.

Definition dq : string := String "034"%char EmptyString.

Definition quoted (s : string) : string := dq +:+ s +:+ dq.

(** The JSON text of a registry record with all three fields:
    AccountID acc1, KeyIndex 5, Change true. *)
Definition recFull : string :=
  "{" +:+ quoted "AccountID" +:+ ":" +:+ quoted "acc1" +:+ ","
      +:+ quoted "KeyIndex" +:+ ":5," +:+ quoted "Change" +:+ ":true}".

(** The JSON text of a registry record that names AccountID acc1 only. *)
Definition recPartial : string :=
  "{" +:+ quoted "AccountID" +:+ ":" +:+ quoted "acc1" +:+ "}".

(** Bytes that are not JSON. *)
Definition recBroken : string := "not json".

(** [json.Unmarshal] into a [CtrlProgram] on the three values above:
    decoding an object assigns the fields it names and leaves the others of
    [cp] as they are; text that is not JSON is an error and [cp] is not
    touched. *)
Definition Unmarshal (bytes : string) (cp : account.CtrlProgram)
    : account.CtrlProgram * option error :=
  if decide (bytes = recFull) then
    ({| account.cpAccountID := "acc1"; account.cpKeyIndex := 5; account.cpChange := true |},
     None)
  else if decide (bytes = recPartial) then
    ({| account.cpAccountID := "acc1";
        account.cpKeyIndex := account.cpKeyIndex cp;
        account.cpChange := account.cpChange cp |},
     None)
  else (cp, Some (ErrorString "invalid character")).

(** An encoder that names the owner fields of the record. *)
Definition Marshal (u : account.UTXO) : string + error :=
  inl (account.OutputID u +:+ "," +:+ account.AccountID u +:+ ","
       +:+ pretty (account.ProgramIndex u) +:+ ","
       +:+ (if account.Change u then "true" else "false")).

(** An encoder that fails. *)
Definition MarshalFails (u : account.UTXO) : string + error :=
  inr (ErrorString "json: unsupported value").

(** The registry: script s1 has the full record, s2 the partial one, s3
    the broken one; account acc1 exists. *)
Definition registry : gmap account.Key string :=
  <[account.AccountCPKey (Sum256 "s1") := recFull]>
  (<[account.AccountCPKey (Sum256 "s2") := recPartial]>
  (<[account.AccountCPKey (Sum256 "s3") := recBroken]>
  (<[account.AccountKey "acc1" := "account acc1"]> ∅))).

Definition value10 : bc.AssetAmount := {| bc.AssetId := "X"; bc.Amount := 10 |}.

Definition entryOut (script : string) : bc.Output :=
  {| bc.Source := {| bc.Ref := "mux"; bc.Value := value10; bc.Position := 0 |};
     bc.ControlProgram := {| bc.VmVersion := 1; bc.Code := script |};
     bc.Data := "data" |}.

Definition txOut (script : string) : legacy.TxOutput :=
  {| legacy.AssetAmount := value10;
     legacy.ControlProgram := script;
     legacy.ReferenceData := "{}" |}.

(** Block 1: one transaction that creates output o1 under script s1. *)
Definition tx1 : legacy.Tx :=
  {| legacy.Outputs := [txOut "s1"];
     legacy.bcTx := {| bc.ID := "t1";
                       bc.Entries := <["o1" := bc.OutputEntry (entryOut "s1")]> ∅;
                       bc.InputIDs := [];
                       bc.ResultIds := ["o1"] |} |}.

Definition block1 : legacy.Block := {| legacy.Transactions := [tx1] |}.

(** Block 2: one transaction that spends o1 and an issuance, creates o2
    under script s2 and retires the rest. *)
Definition tx2 : legacy.Tx :=
  {| legacy.Outputs := [txOut "s2"; txOut "s1"];
     legacy.bcTx := {| bc.ID := "t2";
                       bc.Entries :=
                         <["i1" := bc.SpendEntry {| bc.SpentOutputId := "o1" |}]>
                         (<["i2" := bc.IssuanceEntry]>
                         (<["o1" := bc.OutputEntry (entryOut "s1")]>
                         (<["o2" := bc.OutputEntry (entryOut "s2")]>
                         (<["r1" := bc.RetirementEntry]> ∅))));
                       bc.InputIDs := ["i1"; "i2"];
                       bc.ResultIds := ["o2"; "r1"] |} |}.

Definition block2 : legacy.Block := {| legacy.Transactions := [tx2] |}.

(** Block 3: one transaction that creates o1 under s1 and o2 under s2. *)
Definition tx3 : legacy.Tx :=
  {| legacy.Outputs := [txOut "s1"; txOut "s2"];
     legacy.bcTx := {| bc.ID := "t3";
                       bc.Entries :=
                         <["o1" := bc.OutputEntry (entryOut "s1")]>
                         (<["o2" := bc.OutputEntry (entryOut "s2")]> ∅);
                       bc.InputIDs := [];
                       bc.ResultIds := ["o1"; "o2"] |} |}.

Definition block3 : legacy.Block := {| legacy.Transactions := [tx3] |}.

(** Block 4: one transaction that creates o3 under script s3. *)
Definition tx4 : legacy.Tx :=
  {| legacy.Outputs := [txOut "s3"];
     legacy.bcTx := {| bc.ID := "t4";
                       bc.Entries := <["o3" := bc.OutputEntry (entryOut "s3")]> ∅;
                       bc.InputIDs := [];
                       bc.ResultIds := ["o3"] |} |}.

Definition block4 : legacy.Block := {| legacy.Transactions := [tx4] |}.

(** Block 5: one transaction that spends o1 and retires its value. *)
Definition tx5 : legacy.Tx :=
  {| legacy.Outputs := [txOut "s1"];
     legacy.bcTx := {| bc.ID := "t5";
                       bc.Entries :=
                         <["i1" := bc.SpendEntry {| bc.SpentOutputId := "o1" |}]>
                         (<["o1" := bc.OutputEntry (entryOut "s1")]>
                         (<["r1" := bc.RetirementEntry]> ∅));
                       bc.InputIDs := ["i1"];
                       bc.ResultIds := ["r1"] |} |}.

Definition block5 : legacy.Block := {| legacy.Transactions := [tx5] |}.

(** The raw output with id [id] and script [script], as extracted from
    transaction [tx] at position [j]. *)
Definition rawOut (id : string) (script : string) (tx : string) (j : Z) : wallet.rawOutput :=
  {| wallet.OutputID := id;
     wallet.AssetAmount := value10;
     wallet.ControlProgram := script;
     wallet.txHash := tx;
     wallet.outputIndex := j;
     wallet.sourceID := "mux";
     wallet.sourcePos := 0;
     wallet.refData := "data" |}.

(** What decoding [recFull] leaves in [cp], and what decoding [recPartial]
    leaves in a zero [cp]. *)
Definition cpFull : account.CtrlProgram :=
  {| account.cpAccountID := "acc1"; account.cpKeyIndex := 5; account.cpChange := true |}.

Definition cpPartial : account.CtrlProgram :=
  {| account.cpAccountID := "acc1"; account.cpKeyIndex := 0; account.cpChange := false |}.

Definition w : wallet.Wallet := {| wallet.DB := registry |}.

(** The store with a record for o1 that a local transaction left. *)
Definition storeLocal : gmap account.Key string :=
  <[account.AccountUTXOKey "o1" := "local record"]> registry.

(** The outputs block 3 creates. *)
Definition o1 : wallet.rawOutput := rawOut "o1" "s1" "t3" 0.

Definition o2 : wallet.rawOutput := rawOut "o2" "s2" "t3" 1.

(** A second output under script s1. *)
Definition o5 : wallet.rawOutput := rawOut "o5" "s1" "t3" 2.

(** The states the sample runs leave. *)
Definition st1 : wallet.State :=
  {| wallet.batch := [db.Set_ (account.AccountUTXOKey "o1") "o1,acc1,5,true"];
     wallet.log := [] |}.

Definition st1r : wallet.State :=
  {| wallet.batch := [db.Delete (account.AccountUTXOKey "o1")]; wallet.log := [] |}.

Definition st3a : wallet.State :=
  {| wallet.batch := [db.Set_ (account.AccountUTXOKey "o1") "o1,acc1,5,true";
                      db.Set_ (account.AccountUTXOKey "o2") "o2,acc1,5,true"];
     wallet.log := [] |}.

Definition st3b : wallet.State :=
  {| wallet.batch := [db.Set_ (account.AccountUTXOKey "o2") "o2,acc1,0,false";
                      db.Set_ (account.AccountUTXOKey "o1") "o1,acc1,5,true"];
     wallet.log := [] |}.

(** The unspendable-script predicate on the sample scripts: s1 stands for
    a script that starts with the failing opcode. *)
Definition IsUnspendable (prog : string) : bool := bool_decide (prog = "s1").

(** The validity check of reference data on the sample values. *)
Definition UnmarshalAny (b : string) : option error :=
  if decide (b = "{}") then None else Some (ErrorString "invalid character").

End ex.


(** ** Sample data for the projection *)

Module ex2.

(** Transaction 2 of the sample data with its two inputs: the spend of o1
    and an issuance. *)
Definition spendInput : projection.TxInput :=
  {| projection.inReferenceData := "{}";
     projection.inAssetID := "X";
     projection.inAmount := 10;
     projection.inControlProgram := "s1";
     projection.inIssuanceProgram := EmptyString |}.

Definition issuanceInput : projection.TxInput :=
  {| projection.inReferenceData := "not json";
     projection.inAssetID := "X";
     projection.inAmount := 10;
     projection.inControlProgram := EmptyString;
     projection.inIssuanceProgram := "issue" |}.

Definition tx2 : projection.Tx :=
  {| projection.legacyTx := ex.tx2;
     projection.Inputs := [spendInput; issuanceInput];
     projection.ReferenceData := "{}" |}.

(** Time, hash and height of the sample blocks. *)
Definition Time (b : legacy.Block) : Z := 1500000000.

Definition BlockHash (b : legacy.Block) : Hash := "block".

Definition Height (b : legacy.Block) : Z := 2.

End ex2.

(** ** The record of a spent output, and further sample data *)

(** The record of the output with id [id] as its output entry [resOut]
    describes it, owned as [cp] says. *)
Definition recordOf (id : Hash) (resOut : bc.Output) (cp : account.CtrlProgram) : account.UTXO :=
  {| account.OutputID := id;
     account.AssetID := bc.AssetId (bc.Value (bc.Source resOut));
     account.Amount := bc.Amount (bc.Value (bc.Source resOut));
     account.AccountID := account.cpAccountID cp;
     account.ProgramIndex := account.cpKeyIndex cp;
     account.Program := bc.Code (bc.ControlProgram resOut);
     account.SourceID := bc.Ref (bc.Source resOut);
     account.SourcePos := bc.Position (bc.Source resOut);
     account.RefData := bc.Data resOut;
     account.Change := account.cpChange cp |}.

Module ex3.

(** The sample registry with the record of o1 as confirmation of block 1
    wrote it, and with a record of o1 of other content. *)
Definition storeSpent : gmap account.Key string :=
  <[account.AccountUTXOKey "o1" := "o1,acc1,5,true"]> ex.registry.

Definition storeStale : gmap account.Key string :=
  <[account.AccountUTXOKey "o1" := "stale record"]> ex.registry.

(** The states confirmation and reversal of block 2 leave on these stores. *)
Definition st2 : wallet.State :=
  {| wallet.batch := [db.Delete (account.AccountUTXOKey "o1");
                      db.Set_ (account.AccountUTXOKey "o2") "o2,acc1,0,false"];
     wallet.log := [] |}.

Definition st2r : wallet.State :=
  {| wallet.batch := [db.Set_ (account.AccountUTXOKey "o1") "o1,acc1,5,true";
                      db.Delete (account.AccountUTXOKey "o2")];
     wallet.log := [] |}.




End ex3.

(** * Properties *)


(** ** The write batch *)

Lemma Write_app (ops1 ops2 : list db.Op) (m : gmap account.Key string) :
  db.Write (ops1 ++ ops2) m = db.Write ops2 (db.Write ops1 m).
Proof. unfold db.Write. apply foldl_app. Qed.

Lemma apply_lookup_congr (op : db.Op) (m m' : gmap account.Key string) (k : account.Key) :
  m !! k = m' !! k → db.apply m op !! k = db.apply m' op !! k.
Proof.
  intros Hk. destruct op as [k' v|k']; simpl.
  - destruct (decide (k' = k)) as [->|Hne].
    + by rewrite !lookup_insert_eq.
    + by rewrite !lookup_insert_ne.
  - destruct (decide (k' = k)) as [->|Hne].
    + by rewrite !lookup_delete_eq.
    + by rewrite !lookup_delete_ne.
Qed.

Lemma Write_lookup_congr (ops : list db.Op) (m m' : gmap account.Key string) (k : account.Key) :
  m !! k = m' !! k → db.Write ops m !! k = db.Write ops m' !! k.
Proof.
  revert m m'. induction ops as [|op ops IH]; intros m m' Hk; [done|].
  simpl. apply IH. by apply apply_lookup_congr.
Qed.

Lemma Write_lookup_untouched (ops : list db.Op) (m : gmap account.Key string) (k : account.Key) :
  (∀ op, op ∈ ops → opKey op ≠ k) → db.Write ops m !! k = m !! k.
Proof.
  revert m. induction ops as [|op ops IH]; intros m Hops; [done|].
  simpl. rewrite IH.
  - assert (opKey op ≠ k) as Hne by (apply Hops; left).
    destruct op; simpl in *.
    + by rewrite lookup_insert_ne.
    + by rewrite lookup_delete_ne.
  - intros op' Hin. apply Hops. by right.
Qed.

Lemma Write_deletes_lookup (ops : list db.Op) (m : gmap account.Key string) (k : account.Key) :
  (∀ op, op ∈ ops → isDelete op) → db.Delete k ∈ ops → db.Write ops m !! k = None.
Proof.
  induction ops as [|op ops IH] using rev_ind; intros Hdel Hin.
  - by apply elem_of_nil in Hin.
  - rewrite Write_app. simpl.
    assert (isDelete op) as Hop by (apply Hdel, elem_of_app; right; left).
    destruct op as [|k']; [done|]. simpl.
    destruct (decide (k' = k)) as [->|Hne].
    + by rewrite lookup_delete_eq.
    + rewrite lookup_delete_ne; [|done]. apply IH.
      * intros op' Hop'. apply Hdel, elem_of_app. by left.
      * apply elem_of_app in Hin as [Hin|Hin]; [done|].
        apply list_elem_of_singleton in Hin. congruence.
Qed.

(** Deleting a key that is not there changes nothing. *)
Lemma Write_delete_absent (m : gmap account.Key string) (k : account.Key) :
  m !! k = None → db.Write [db.Delete k] m = m.
Proof. intros Hk. simpl. by apply delete_id. Qed.

(** ** Grouping by script *)

Lemma groupByScript_foldl (outs : list rawOutput) (m : gmap string (list rawOutput)) (s : string) :
  default [] (foldl (λ outsByScript out,
             let scriptStr := ControlProgram out in
             <[scriptStr := default [] (outsByScript !! scriptStr) ++ [out]]> outsByScript)
          m outs !! s)
  = default [] (m !! s) ++ filter (λ out, ControlProgram out = s) outs.
Proof.
  revert m. induction outs as [|out outs IH]; intros m; simpl.
  - by rewrite app_nil_r.
  - rewrite IH. rewrite filter_cons.
    destruct (decide (ControlProgram out = s)) as [Heq|Hne].
    + rewrite Heq, lookup_insert_eq. simpl. by rewrite <- app_assoc.
    + by rewrite lookup_insert_ne.
Qed.

Lemma groupByScript_lookup (outs : list rawOutput) (s : string) :
  default [] (groupByScript outs !! s) = filter (λ out, ControlProgram out = s) outs.
Proof. unfold groupByScript. by rewrite groupByScript_foldl, lookup_empty. Qed.

Lemma groupByScript_elem (outs : list rawOutput) (s : string) (out : rawOutput) :
  out ∈ default [] (groupByScript outs !! s) ↔ out ∈ outs ∧ ControlProgram out = s.
Proof. rewrite groupByScript_lookup, list_elem_of_filter. tauto. Qed.

(** ** Ownership resolution *)

Section indexer.

Variable Sum256 : string → string.
Variable Unmarshal : string → account.CtrlProgram → account.CtrlProgram * option error.
Variable Marshal : account.UTXO → string + error.

Lemma resolveScript_spec (w : Wallet) (m : gmap string (list rawOutput))
    (cp : account.CtrlProgram) (res : list accountOutput) (s : string) :
  ∃ cp' new, resolveScript Sum256 Unmarshal w m (cp, res) s = (cp', res ++ new)
    ∧ (new = [] ∨ (resolves Sum256 Unmarshal w s cp cp' ∧ new = map (annotate cp') (default [] (m !! s)))).
Proof.
  unfold resolveScript.
  destruct (DB w !! account.AccountCPKey (Sum256 s)) as [bytes|] eqn:Hcp.
  - destruct (Unmarshal bytes cp) as [cp' [e|]] eqn:Hdec.
    + exists cp', []. rewrite app_nil_r. auto.
    + destruct (DB w !! account.AccountKey (account.cpAccountID cp')) as [v|] eqn:Hacc.
      * exists cp', (map (annotate cp') (default [] (m !! s))). split; [done|].
        right. split; [|done]. exists bytes. rewrite Hacc. eauto.
      * exists cp', []. rewrite app_nil_r. auto.
  - exists cp, []. rewrite app_nil_r. auto.
Qed.

Lemma resolveLoop_cons (w : Wallet) (m : gmap string (list rawOutput))
    (s : string) (order : list string) (st : account.CtrlProgram * list accountOutput) :
  resolveLoop Sum256 Unmarshal w m (s :: order) st
  = resolveLoop Sum256 Unmarshal w m order (resolveScript Sum256 Unmarshal w m st s).
Proof. reflexivity. Qed.

(** Every output of the result was annotated in the iteration of its own
    script, which passed the three checks. *)
Lemma resolveLoop_provenance (w : Wallet) (m : gmap string (list rawOutput))
    (order : list string) (cp : account.CtrlProgram) (res : list accountOutput)
    (ao : accountOutput) :
  ao ∈ (resolveLoop Sum256 Unmarshal w m order (cp, res)).2 →
  ao ∈ res ∨ ∃ s cp0 cp1, s ∈ order ∧ resolves Sum256 Unmarshal w s cp0 cp1
                          ∧ raw ao ∈ default [] (m !! s) ∧ ao = annotate cp1 (raw ao).
Proof.
  revert cp res. induction order as [|s order IH]; intros cp res Hin; [by left|].
  rewrite resolveLoop_cons in Hin.
  destruct (resolveScript_spec w m cp res s) as (cp' & new & Hstep & Hnew).
  rewrite Hstep in Hin. apply IH in Hin as [Hin|Hin].
  - apply elem_of_app in Hin as [Hin|Hin]; [by left|].
    destruct Hnew as [->|[Hres ->]]; [by apply elem_of_nil in Hin|].
    right. exists s, cp, cp'. apply list_elem_of_fmap in Hin as (out & -> & Hout).
    split; [left|]. done.
  - right. destruct Hin as (s' & cp0 & cp1 & Hs' & Hrest).
    exists s', cp0, cp1. split; [by right|done].
Qed.

Lemma loadAccountInfo_provenance (order : list string) (w : Wallet) (outs : list rawOutput)
    (ao : accountOutput) :
  ao ∈ loadAccountInfo Sum256 Unmarshal order w outs →
  ∃ cp0 cp1, resolves Sum256 Unmarshal w (ControlProgram (raw ao)) cp0 cp1
             ∧ raw ao ∈ outs ∧ ao = annotate cp1 (raw ao).
Proof.
  unfold loadAccountInfo. intros Hin.
  apply resolveLoop_provenance in Hin as [Hin|Hin]; [by apply elem_of_nil in Hin|].
  destruct Hin as (s & cp0 & cp1 & _ & Hres & Hraw & Hann).
  apply groupByScript_elem in Hraw as [Hraw <-]. eauto.
Qed.

Lemma resolveLoop_coherent (w : Wallet) (m : gmap string (list rawOutput))
    (order : list string) (cp : account.CtrlProgram) (res : list accountOutput) :
  (∀ s out, out ∈ default [] (m !! s) → ControlProgram out = s) →
  NoDup order →
  (∀ ao, ao ∈ res → ControlProgram (raw ao) ∉ order) →
  coherent Sum256 Unmarshal w res →
  coherent Sum256 Unmarshal w (resolveLoop Sum256 Unmarshal w m order (cp, res)).2.
Proof.
  intros Hm. revert cp res.
  induction order as [|s order IH]; intros cp res Hnd Hfresh Hco; [done|].
  rewrite resolveLoop_cons.
  destruct (resolveScript_spec w m cp res s) as (cp' & new & -> & Hnew).
  apply NoDup_cons in Hnd as [Hs Hnd].
  assert (∀ ao, ao ∈ new → ControlProgram (raw ao) = s ∧ resolves Sum256 Unmarshal w s cp cp'
                            ∧ ao = annotate cp' (raw ao)) as Hnew'.
  { intros ao Hao. destruct Hnew as [->|[Hres ->]]; [by apply elem_of_nil in Hao|].
    apply list_elem_of_fmap in Hao as (out & -> & Hout). split; [|done].
    by apply Hm. }
  apply IH; [done| |].
  - intros ao [Hao|Hao]%elem_of_app.
    + intros Hin. apply (Hfresh ao Hao). by right.
    + destruct (Hnew' ao Hao) as (-> & _). done.
  - intros ao1 [Hao1|Hao1]%elem_of_app.
    + destruct (Hco ao1 Hao1) as (cp0 & cp1 & Hres & Hall).
      exists cp0, cp1. split; [done|].
      intros ao2 [Hao2|Hao2]%elem_of_app Heq; [by apply Hall|].
      destruct (Hnew' ao2 Hao2) as (Hs2 & _). exfalso.
      apply (Hfresh ao1 Hao1). rewrite <- Heq, Hs2. left.
    + destruct (Hnew' ao1 Hao1) as (Hs1 & Hres & Hann1).
      exists cp, cp'. rewrite Hs1. split; [done|].
      intros ao2 [Hao2|Hao2]%elem_of_app Heq.
      * exfalso. apply (Hfresh ao2 Hao2). rewrite Heq. left.
      * by destruct (Hnew' ao2 Hao2) as (_ & _ & Hann2).
Qed.

Lemma loadAccountInfo_raw (order : list string) (w : Wallet) (outs : list rawOutput)
    (ao : accountOutput) :
  ao ∈ loadAccountInfo Sum256 Unmarshal order w outs → raw ao ∈ outs.
Proof.
  intros Hin. by destruct (loadAccountInfo_provenance _ _ _ _ Hin) as (_ & _ & _ & Hraw & _).
Qed.

(** ** Upserts and deletes *)

Lemma upsert_shape (outs : list accountOutput) (b : legacy.Block) (batch : list db.Op) :
  upsertConfirmedAccountOutputs Marshal outs b batch
  = (batch ++ (upsertConfirmedAccountOutputs Marshal outs b []).1,
     (upsertConfirmedAccountOutputs Marshal outs b []).2).
Proof.
  revert batch. induction outs as [|out outs IH]; intros batch; simpl.
  - by rewrite app_nil_r.
  - destruct (Marshal (utxoOf out)) as [rawUTXO|e]; simpl.
    + rewrite IH.
      rewrite (IH [db.Set_ (account.AccountUTXOKey (OutputID (raw out))) rawUTXO]).
      simpl. by rewrite <- app_assoc.
    + by rewrite app_nil_r.
Qed.

(** Everything the upsert appends is a [Set] of the encoding of one of the
    outputs, under the key of its [OutputID]. *)
Lemma upsert_ops (outs : list accountOutput) (b : legacy.Block) (op : db.Op) :
  op ∈ (upsertConfirmedAccountOutputs Marshal outs b []).1 →
  ∃ ao rawUTXO, ao ∈ outs ∧ Marshal (utxoOf ao) = inl rawUTXO
                ∧ op = setOp (OutputID (raw ao)) rawUTXO.
Proof.
  induction outs as [|out outs IH]; simpl.
  - intros Hin. by apply elem_of_nil in Hin.
  - destruct (Marshal (utxoOf out)) as [rawUTXO|e] eqn:Hm; simpl.
    + rewrite upsert_shape. simpl. intros [->|Hin]%elem_of_cons.
      * exists out, rawUTXO. split; [left|done].
      * destruct (IH Hin) as (ao & v & Hao & Hrest). exists ao, v. split; [by right|done].
    + intros Hin. by apply elem_of_nil in Hin.
Qed.

Lemma upsert_ok (outs : list accountOutput) (b : legacy.Block) :
  (∀ ao, ao ∈ outs → ∃ rawUTXO, Marshal (utxoOf ao) = inl rawUTXO) →
  (upsertConfirmedAccountOutputs Marshal outs b []).2 = None.
Proof.
  induction outs as [|out outs IH]; intros Hall; simpl; [done|].
  destruct (Hall out) as [rawUTXO ->]; [left|].
  rewrite upsert_shape. simpl. apply IH. intros ao Hao. apply Hall. by right.
Qed.

(** The upsert stops at the first output that does not encode: what it
    appended are the [Set]s of the outputs before it. *)
Lemma upsert_fails (pre post : list accountOutput) (out : accountOutput) (e : error)
    (b : legacy.Block) (batch : list db.Op) :
  (∀ ao, ao ∈ pre → ∃ rawUTXO, Marshal (utxoOf ao) = inl rawUTXO) →
  Marshal (utxoOf out) = inr e →
  upsertConfirmedAccountOutputs Marshal (pre ++ out :: post) b batch
  = (batch ++ (upsertConfirmedAccountOutputs Marshal pre b []).1,
     Some (Wrap e "failed marshal accountutxo")).
Proof.
  revert batch. induction pre as [|ao pre IH]; intros batch Hpre Hout; simpl.
  - rewrite Hout. by rewrite app_nil_r.
  - destruct (Hpre ao) as [rawUTXO ->]; [left|].
    rewrite IH; [|intros ao' Hao'; apply Hpre; by right|done].
    rewrite (upsert_shape pre b [_]). simpl. by rewrite <- app_assoc.
Qed.

(** Some output of the list does not encode: it has a first such. *)
Lemma first_failure (outs : list accountOutput) (out : accountOutput) (e : error) :
  out ∈ outs → Marshal (utxoOf out) = inr e →
  ∃ pre out' e' post, outs = pre ++ out' :: post
    ∧ (∀ ao, ao ∈ pre → ∃ rawUTXO, Marshal (utxoOf ao) = inl rawUTXO)
    ∧ Marshal (utxoOf out') = inr e'.
Proof.
  induction outs as [|ao outs IH]; intros Hin Hout; [by apply elem_of_nil in Hin|].
  destruct (Marshal (utxoOf ao)) as [rawUTXO|e'] eqn:Hao.
  - apply elem_of_cons in Hin as [->|Hin]; [congruence|].
    destruct (IH Hin Hout) as (pre & out' & e'' & post & -> & Hpre & Hout').
    exists (ao :: pre), out', e'', post. split; [done|]. split; [|done].
    intros ao' [->|Hao']%elem_of_cons; eauto.
  - exists [], ao, e', outs. split; [done|]. split; [|done].
    intros ao' Hao'. by apply elem_of_nil in Hao'.
Qed.

Lemma foldl_delete (batch : list db.Op) (ids : list Hash) :
  foldl (λ batch delOutputID, batch ++ [db.Delete (account.AccountUTXOKey delOutputID)])
        batch ids
  = batch ++ map delOp ids.
Proof.
  revert batch. induction ids as [|id ids IH]; intros batch; simpl.
  - by rewrite app_nil_r.
  - rewrite IH. by rewrite <- app_assoc.
Qed.

(** ** Created outputs *)

Lemma txNewOuts_total (tx : legacy.Tx) (j : nat) (outputs : list legacy.TxOutput) :
  j + length outputs ≤ length (bc.ResultIds (legacy.bcTx tx)) →
  is_Some (txNewOuts tx j outputs).
Proof.
  revert j. induction outputs as [|out outputs IH]; intros j Hlen; simpl; [by eexists|].
  simpl in Hlen.
  destruct (lookup_lt_is_Some_2 (bc.ResultIds (legacy.bcTx tx)) j) as [rid Hrid]; [lia|].
  rewrite Hrid. destruct (IH (S j)) as [rest Hrest]; [lia|].
  destruct (bc.Entries (legacy.bcTx tx) !! rid) as [[resOut| | | |]|]; try by eexists.
  unfold legacy.OutputID. rewrite Hrid, Hrest. by eexists.
Qed.

Lemma newOuts_total_txs (txs : list legacy.Tx) :
  (∀ tx, tx ∈ txs → length (legacy.Outputs tx) ≤ length (bc.ResultIds (legacy.bcTx tx))) →
  is_Some (newOuts txs).
Proof.
  induction txs as [|tx txs IH]; intros Hwf; simpl; [by eexists|].
  destruct (txNewOuts_total tx 0 (legacy.Outputs tx)) as [outs ->]; [apply Hwf; left|].
  destruct IH as [rest ->]; [intros tx' Htx'; apply Hwf; by right|].
  by eexists.
Qed.

Lemma newOuts_total (b : legacy.Block) :
  wellFormed b → is_Some (newOuts (legacy.Transactions b)).
Proof. apply newOuts_total_txs. Qed.

Lemma txNewOuts_provenance (tx : legacy.Tx) (j0 : nat) (outputs : list legacy.TxOutput)
    (outs : list rawOutput) (ro : rawOutput) :
  txNewOuts tx j0 outputs = Some outs → ro ∈ outs →
  ∃ i out resOut, outputs !! i = Some out
    ∧ bc.ResultIds (legacy.bcTx tx) !! (j0 + i) = Some (OutputID ro)
    ∧ bc.Entries (legacy.bcTx tx) !! OutputID ro = Some (bc.OutputEntry resOut)
    ∧ ro = newOut tx (j0 + i) out (OutputID ro) resOut.
Proof.
  revert j0 outs. induction outputs as [|out outputs IH]; intros j0 outs Hsome Hin; simpl in Hsome.
  - injection Hsome as <-. by apply elem_of_nil in Hin.
  - destruct (bc.ResultIds (legacy.bcTx tx) !! j0) as [rid|] eqn:Hrid; [|done].
    assert (∀ outs', txNewOuts tx (S j0) outputs = Some outs' → ro ∈ outs' →
            ∃ i out' resOut, (out :: outputs) !! i = Some out'
              ∧ bc.ResultIds (legacy.bcTx tx) !! (j0 + i) = Some (OutputID ro)
              ∧ bc.Entries (legacy.bcTx tx) !! OutputID ro = Some (bc.OutputEntry resOut)
              ∧ ro = newOut tx (j0 + i) out' (OutputID ro) resOut) as Hrest.
    { intros outs' Hsome' Hin'.
      destruct (IH _ _ Hsome' Hin') as (i & out' & resOut & Hi & Hr & He & Hro).
      exists (S i), out', resOut. replace (j0 + S i) with (S j0 + i) by lia. done. }
    destruct (bc.Entries (legacy.bcTx tx) !! rid) as [[resOut| | | |]|] eqn:Hent;
      simpl in Hsome; try (by eapply Hrest).
    unfold legacy.OutputID in Hsome. rewrite Hrid in Hsome.
    destruct (txNewOuts tx (S j0) outputs) as [rest|] eqn:Hrec; [|done].
    simpl in Hsome. injection Hsome as <-.
    apply elem_of_cons in Hin as [->|Hin]; [|by apply (Hrest rest)].
    exists 0, out, resOut. rewrite Nat.add_0_r. done.
Qed.

(** Every created output that is extracted sits at a position of a
    transaction of the list whose result entry is an output entry. *)
Lemma newOuts_provenance (txs : list legacy.Tx) (outs : list rawOutput) (ro : rawOutput) :
  newOuts txs = Some outs → ro ∈ outs →
  ∃ tx j out resOut, tx ∈ txs ∧ legacy.Outputs tx !! j = Some out
    ∧ bc.ResultIds (legacy.bcTx tx) !! j = Some (OutputID ro)
    ∧ bc.Entries (legacy.bcTx tx) !! OutputID ro = Some (bc.OutputEntry resOut)
    ∧ ro = newOut tx j out (OutputID ro) resOut.
Proof.
  revert outs. induction txs as [|tx txs IH]; intros outs Hsome Hin; simpl in Hsome.
  - injection Hsome as <-. by apply elem_of_nil in Hin.
  - destruct (txNewOuts tx 0 (legacy.Outputs tx)) as [outs1|] eqn:H1; [|done].
    destruct (newOuts txs) as [outs2|] eqn:H2; [|done].
    simpl in Hsome. injection Hsome as <-.
    apply elem_of_app in Hin as [Hin|Hin].
    + destruct (txNewOuts_provenance _ _ _ _ _ H1 Hin) as (i & out & resOut & Hrest).
      exists tx, i, out, resOut. split; [left|done].
    + destruct (IH _ eq_refl Hin) as (tx' & j & out & resOut & Htx' & Hrest).
      exists tx', j, out, resOut. split; [by right|done].
Qed.

(** The delete loop of reversal walks the same positions as the
    extraction of created outputs, and panics where it does. *)
Lemma txDeleteNew_txNewOuts (tx : legacy.Tx) (j : nat) (outputs : list legacy.TxOutput)
    (batch : list db.Op) :
  txDeleteNew tx j outputs batch
  = (outs ← txNewOuts tx j outputs; Some (batch ++ map (λ ro, delOp (OutputID ro)) outs)).
Proof.
  revert j batch. induction outputs as [|out outputs IH]; intros j batch; simpl.
  - by rewrite app_nil_r.
  - destruct (bc.ResultIds (legacy.bcTx tx) !! j) as [rid|] eqn:Hrid; [|done].
    destruct (bc.Entries (legacy.bcTx tx) !! rid) as [[resOut| | | |]|] eqn:Hent; try apply IH.
    unfold legacy.OutputID. rewrite Hrid, IH.
    destruct (txNewOuts tx (S j) outputs) as [rest|]; [|done].
    simpl. by rewrite <- app_assoc.
Qed.

Lemma deleteNew_newOuts (txs : list legacy.Tx) (batch : list db.Op) :
  deleteNew txs batch
  = (outs ← newOuts txs; Some (batch ++ map (λ ro, delOp (OutputID ro)) outs)).
Proof.
  revert batch. induction txs as [|tx txs IH]; intros batch; simpl.
  - by rewrite app_nil_r.
  - rewrite txDeleteNew_txNewOuts.
    destruct (txNewOuts tx 0 (legacy.Outputs tx)) as [outs1|]; [|done]. simpl.
    rewrite IH. destruct (newOuts txs) as [outs2|]; [|done]. simpl.
    by rewrite map_app, app_assoc.
Qed.

(** ** Spent outputs *)

Lemma elem_of_flat_map {A B : Type} (f : A → list B) (l : list A) (y : B) :
  y ∈ flat_map f l ↔ ∃ x, x ∈ l ∧ y ∈ f x.
Proof.
  rewrite list_elem_of_In, in_flat_map. split.
  - intros (x & Hx & Hy). exists x. by rewrite !list_elem_of_In.
  - intros (x & Hx & Hy). exists x. by rewrite <- !list_elem_of_In.
Qed.

Lemma prevoutDBKeys_elem (txs : list legacy.Tx) (id : Hash) :
  id ∈ prevoutDBKeys txs ↔
  ∃ tx inpID sp, tx ∈ txs ∧ inpID ∈ bc.InputIDs (legacy.bcTx tx)
                 ∧ bc.Tx_Spend (legacy.bcTx tx) inpID = inl sp
                 ∧ id = bc.SpentOutputId sp.
Proof.
  unfold prevoutDBKeys. rewrite elem_of_flat_map. split.
  - intros (tx & Htx & Hid). apply list_elem_of_omap in Hid as (inpID & Hinp & Hsp).
    destruct (bc.Tx_Spend (legacy.bcTx tx) inpID) as [sp|e] eqn:Hspend; [|done].
    injection Hsp as <-. by exists tx, inpID, sp.
  - intros (tx & inpID & sp & Htx & Hinp & Hspend & ->).
    exists tx. split; [done|]. apply list_elem_of_omap. exists inpID.
    by rewrite Hspend.
Qed.

(** Whatever reversal extracts as spent has its id among the keys
    confirmation deletes. *)
Lemma reverseOuts_spent (txs : list legacy.Tx) (ro : rawOutput) :
  ro ∈ reverseOuts txs → OutputID ro ∈ prevoutDBKeys txs.
Proof.
  unfold reverseOuts. rewrite elem_of_flat_map. intros (tx & Htx & Hro).
  apply list_elem_of_omap in Hro as (inpID & Hinp & Hro).
  apply prevoutDBKeys_elem. unfold reverseOut in Hro.
  destruct (bc.Tx_Spend (legacy.bcTx tx) inpID) as [sp|e] eqn:Hspend; [|done].
  exists tx, inpID, sp.
  destruct (bc.Entries (legacy.bcTx tx) !! bc.SpentOutputId sp) as [[resOut| | | |]|];
    try done.
  by injection Hro as <-.
Qed.

(** ** The two entry points *)

Lemma Build_spec (order : list string) (w : Wallet) (batch : list db.Op) (b : legacy.Block)
    (outs : list rawOutput) :
  newOuts (legacy.Transactions b) = Some outs →
  ∃ lg, BuildAccountUTXOs Sum256 Unmarshal Marshal order w batch b
        = Returns {| batch := batch ++ map delOp (prevoutDBKeys (legacy.Transactions b))
                       ++ (upsertConfirmedAccountOutputs Marshal
                             (loadAccountInfo Sum256 Unmarshal order w outs) b []).1;
                     log := lg |}.
Proof.
  intros Hnew. unfold BuildAccountUTXOs. rewrite Hnew, foldl_delete, upsert_shape.
  rewrite <- app_assoc.
  destruct (upsertConfirmedAccountOutputs Marshal _ b []).2; by eexists.
Qed.

Lemma Reverse_spec_ok (order : list string) (w : Wallet) (batch : list db.Op)
    (b : legacy.Block) (outs : list rawOutput) :
  let accOuts := loadAccountInfo Sum256 Unmarshal order w (reverseOuts (legacy.Transactions b)) in
  (upsertConfirmedAccountOutputs Marshal accOuts b []).2 = None →
  newOuts (legacy.Transactions b) = Some outs →
  ReverseAccountUTXOs Sum256 Unmarshal Marshal order w batch b
  = Returns {| batch := batch ++ (upsertConfirmedAccountOutputs Marshal accOuts b []).1
                 ++ map (λ ro, delOp (OutputID ro)) outs;
               log := [] |}.
Proof.
  intros accOuts Hok Hnew. unfold ReverseAccountUTXOs. fold accOuts.
  rewrite upsert_shape, Hok, deleteNew_newOuts, Hnew. simpl.
  by rewrite <- app_assoc.
Qed.

Lemma Reverse_spec_err (order : list string) (w : Wallet) (batch : list db.Op)
    (b : legacy.Block) (err : error) :
  let accOuts := loadAccountInfo Sum256 Unmarshal order w (reverseOuts (legacy.Transactions b)) in
  (upsertConfirmedAccountOutputs Marshal accOuts b []).2 = Some err →
  ReverseAccountUTXOs Sum256 Unmarshal Marshal order w batch b
  = Returns {| batch := batch ++ (upsertConfirmedAccountOutputs Marshal accOuts b []).1;
               log := [{| logErr := err;
                          logMsg := "reversing account spent and retire outputs" |}] |}.
Proof.
  intros accOuts Herr. unfold ReverseAccountUTXOs. fold accOuts.
  by rewrite upsert_shape, Herr.
Qed.

(** ** Claims on ownership resolution *)

(** C7.  In one pass of [loadAccountInfo], two outputs of the result that
    carry the same control program carry the same [AccountID], [keyIndex]
    and [change]: both are annotated from one [cp], decoded from the one
    registry record read under the hash of that script. *)
Theorem loadAccountInfo_same_script_same_owner (order : list string) (w : Wallet)
    (outs : list rawOutput) (ao1 ao2 : accountOutput) :
  rangeOrder (groupByScript outs) order →
  ao1 ∈ loadAccountInfo Sum256 Unmarshal order w outs →
  ao2 ∈ loadAccountInfo Sum256 Unmarshal order w outs →
  ControlProgram (raw ao1) = ControlProgram (raw ao2) →
  (AccountID ao1 = AccountID ao2 ∧ keyIndex ao1 = keyIndex ao2 ∧ change ao1 = change ao2)
  ∧ ∃ bytes cp0 cp1,
      DB w !! account.AccountCPKey (Sum256 (ControlProgram (raw ao1))) = Some bytes
      ∧ Unmarshal bytes cp0 = (cp1, None)
      ∧ ao1 = annotate cp1 (raw ao1) ∧ ao2 = annotate cp1 (raw ao2).
Proof.
  intros [Hnd _] H1 H2 Heq.
  assert (coherent Sum256 Unmarshal w (loadAccountInfo Sum256 Unmarshal order w outs)) as Hco.
  { unfold loadAccountInfo. apply resolveLoop_coherent; [|done| |].
    - intros s out Hout. by apply groupByScript_elem in Hout as [_ ?].
    - intros ao Hao. by apply elem_of_nil in Hao.
    - intros ao Hao. by apply elem_of_nil in Hao. }
  destruct (Hco ao1 H1) as (cp0 & cp1 & (bytes & Hrec & Hdec & _) & Hall).
  pose proof (Hall ao1 H1 eq_refl) as E1.
  pose proof (Hall ao2 H2 (eq_sym Heq)) as E2.
  split.
  - rewrite E1, E2. done.
  - by exists bytes, cp0, cp1.
Qed.

(** C8.  A registry value that does not decode makes the iteration of its
    script add nothing to the result and go on with the remaining scripts,
    as a lookup miss and a missing account do; [loadAccountInfo] has no
    error result, and no output carrying that script is in what it
    returns. *)
Theorem loadAccountInfo_decode_error_skips (w : Wallet) (m : gmap string (list rawOutput))
    (s : string) (bytes : string) (rest : list string) (cp : account.CtrlProgram)
    (res : list accountOutput) :
  DB w !! account.AccountCPKey (Sum256 s) = Some bytes →
  (∀ cp0, is_Some (Unmarshal bytes cp0).2) →
  resolveLoop Sum256 Unmarshal w m (s :: rest) (cp, res)
  = resolveLoop Sum256 Unmarshal w m rest ((Unmarshal bytes cp).1, res)
  ∧ (∀ order outs ao, ao ∈ loadAccountInfo Sum256 Unmarshal order w outs →
                      ControlProgram (raw ao) ≠ s)
  ∧ (∀ w', DB w' !! account.AccountCPKey (Sum256 s) = None →
           resolveLoop Sum256 Unmarshal w' m (s :: rest) (cp, res)
           = resolveLoop Sum256 Unmarshal w' m rest (cp, res))
  ∧ (∀ w' bytes' cp',
       DB w' !! account.AccountCPKey (Sum256 s) = Some bytes' →
       Unmarshal bytes' cp = (cp', None) →
       DB w' !! account.AccountKey (account.cpAccountID cp') = None →
       resolveLoop Sum256 Unmarshal w' m (s :: rest) (cp, res)
       = resolveLoop Sum256 Unmarshal w' m rest (cp', res)).
Proof.
  intros Hrec Hfail. repeat split.
  - rewrite resolveLoop_cons. f_equal. unfold resolveScript. rewrite Hrec.
    destruct (Hfail cp) as [e He]. destruct (Unmarshal bytes cp) as [cp' err].
    simpl in *. by rewrite He.
  - intros order outs ao Hao <-.
    destruct (loadAccountInfo_provenance _ _ _ _ Hao) as (cp0 & cp1 & (bytes' & Hrec' & Hdec & _) & _).
    rewrite Hrec in Hrec'. injection Hrec' as <-.
    destruct (Hfail cp0) as [e He]. rewrite Hdec in He. done.
  - intros w' Hmiss. rewrite resolveLoop_cons. f_equal. unfold resolveScript. by rewrite Hmiss.
  - intros w' bytes' cp' Hrec' Hdec Hacc. rewrite resolveLoop_cons. f_equal.
    unfold resolveScript. by rewrite Hrec', Hdec, Hacc.
Qed.

(** ** Claims on confirmation *)

(** C4.  A created output whose script hashes to no registry entry gets no
    record: [BuildAccountUTXOs] appends no [Set] under the key of its
    [OutputID], whatever its asset and amount. *)
Theorem BuildAccountUTXOs_unregistered_not_written (order : list string) (w : Wallet)
    (batch : list db.Op) (b : legacy.Block) (outs : list rawOutput) (ro : rawOutput) :
  newOuts (legacy.Transactions b) = Some outs →
  contentAddressed outs →
  ro ∈ outs →
  DB w !! account.AccountCPKey (Sum256 (ControlProgram ro)) = None →
  ∃ st added,
    BuildAccountUTXOs Sum256 Unmarshal Marshal order w batch b = Returns st
    ∧ wallet.batch st = batch ++ added
    ∧ ∀ rawUTXO, db.Set_ (account.AccountUTXOKey (OutputID ro)) rawUTXO ∉ added.
Proof.
  intros Hnew Hca Hro Hmiss.
  destruct (Build_spec order w batch b outs Hnew) as [lg ->].
  eexists _, _. split; [done|]. split; [done|].
  intros rawUTXO [Hin|Hin]%elem_of_app.
  - apply list_elem_of_fmap in Hin as (id & Hop & _). done.
  - apply upsert_ops in Hin as (ao & v & Hao & _ & Hop).
    injection Hop as Hid _.
    destruct (loadAccountInfo_provenance _ _ _ _ Hao)
      as (cp0 & cp1 & (bytes & Hrec & _) & Hraw & _).
    rewrite (Hca (raw ao) ro Hraw Hro (eq_sym Hid)) in Hrec. congruence.
Qed.

(** C5.  For every output id spent by an input of a transaction of the
    block, [BuildAccountUTXOs] appends a delete under its key; the deletes
    are the same for every wallet, and committing a delete of an absent key
    leaves the store as it was. *)
Theorem BuildAccountUTXOs_deletes_spent (order : list string) (w : Wallet)
    (batch : list db.Op) (b : legacy.Block) (tx : legacy.Tx) (inpID : Hash) (sp : bc.Spend) :
  wellFormed b →
  tx ∈ legacy.Transactions b →
  inpID ∈ bc.InputIDs (legacy.bcTx tx) →
  bc.Tx_Spend (legacy.bcTx tx) inpID = inl sp →
  ∃ st sets,
    BuildAccountUTXOs Sum256 Unmarshal Marshal order w batch b = Returns st
    ∧ wallet.batch st = batch ++ map delOp (prevoutDBKeys (legacy.Transactions b)) ++ sets
    ∧ (∀ op, op ∈ sets → ¬ isDelete op)
    ∧ db.Delete (account.AccountUTXOKey (bc.SpentOutputId sp))
        ∈ map delOp (prevoutDBKeys (legacy.Transactions b))
    ∧ ∀ m : gmap account.Key string,
        m !! account.AccountUTXOKey (bc.SpentOutputId sp) = None →
        db.Write [db.Delete (account.AccountUTXOKey (bc.SpentOutputId sp))] m = m.
Proof.
  intros Hwf Htx Hinp Hspend.
  destruct (newOuts_total b Hwf) as [outs Hnew].
  destruct (Build_spec order w batch b outs Hnew) as [lg ->].
  eexists _, _. split; [done|]. split; [done|]. split; [|split].
  - intros op Hop Hdel. apply upsert_ops in Hop as (ao & v & _ & _ & ->). done.
  - apply (list_elem_of_fmap_2 delOp). apply prevoutDBKeys_elem. by exists tx, inpID, sp.
  - intros m Hm. by apply Write_delete_absent.
Qed.

(** C6.  Created-output extraction keeps only results whose entry is an
    output entry: every extracted output, and every record
    [BuildAccountUTXOs] writes, belongs to a position of a transaction of
    the block whose result id maps to an output entry; an id that is not an
    output entry in any transaction of the block gets no record, whatever
    the registry holds. *)
Theorem BuildAccountUTXOs_skips_retirements (order : list string) (w : Wallet)
    (batch : list db.Op) (b : legacy.Block) :
  wellFormed b →
  ∃ outs st added,
    newOuts (legacy.Transactions b) = Some outs
    ∧ BuildAccountUTXOs Sum256 Unmarshal Marshal order w batch b = Returns st
    ∧ wallet.batch st = batch ++ added
    ∧ (∀ ro, ro ∈ outs →
         ∃ tx j out resOut, tx ∈ legacy.Transactions b
           ∧ legacy.Outputs tx !! j = Some out
           ∧ bc.ResultIds (legacy.bcTx tx) !! j = Some (OutputID ro)
           ∧ bc.Entries (legacy.bcTx tx) !! OutputID ro = Some (bc.OutputEntry resOut)
           ∧ ro = newOut tx j out (OutputID ro) resOut)
    ∧ (∀ id rawUTXO, db.Set_ (account.AccountUTXOKey id) rawUTXO ∈ added →
         ∃ tx j resOut, tx ∈ legacy.Transactions b
           ∧ j < length (legacy.Outputs tx)
           ∧ bc.ResultIds (legacy.bcTx tx) !! j = Some id
           ∧ bc.Entries (legacy.bcTx tx) !! id = Some (bc.OutputEntry resOut))
    ∧ (∀ id, (∀ tx resOut, tx ∈ legacy.Transactions b →
                bc.Entries (legacy.bcTx tx) !! id ≠ Some (bc.OutputEntry resOut)) →
             ∀ rawUTXO, db.Set_ (account.AccountUTXOKey id) rawUTXO ∉ added).
Proof.
  intros Hwf.
  destruct (newOuts_total b Hwf) as [outs Hnew].
  destruct (Build_spec order w batch b outs Hnew) as [lg Hb].
  assert (∀ id rawUTXO,
    db.Set_ (account.AccountUTXOKey id) rawUTXO
      ∈ map delOp (prevoutDBKeys (legacy.Transactions b))
        ++ (upsertConfirmedAccountOutputs Marshal
              (loadAccountInfo Sum256 Unmarshal order w outs) b []).1 →
    ∃ tx j resOut, tx ∈ legacy.Transactions b
      ∧ j < length (legacy.Outputs tx)
      ∧ bc.ResultIds (legacy.bcTx tx) !! j = Some id
      ∧ bc.Entries (legacy.bcTx tx) !! id = Some (bc.OutputEntry resOut)) as Hsets.
  { intros id rawUTXO [Hin|Hin]%elem_of_app.
    - apply list_elem_of_fmap in Hin as (id' & Hop & _). done.
    - apply upsert_ops in Hin as (ao & v & Hao & _ & Hop). injection Hop as -> _.
      apply loadAccountInfo_raw in Hao.
      destruct (newOuts_provenance _ _ _ Hnew Hao) as (tx & j & out & resOut & Htx & Hj & Hr & He & _).
      exists tx, j, resOut. split; [done|]. split; [|done].
      by apply lookup_lt_Some in Hj. }
  eexists outs, _, _. split; [done|]. split; [exact Hb|]. split; [done|].
  split; [|split].
  - intros ro Hro. by apply (newOuts_provenance _ _ _ Hnew).
  - exact Hsets.
  - intros id Hno rawUTXO Hin.
    destruct (Hsets _ _ Hin) as (tx & j & resOut & Htx & _ & _ & He).
    by apply (Hno tx resOut).
Qed.

(** ** Claims on reversal *)

(** C3, as it holds of the code.  When a restored record does not encode,
    [ReverseAccountUTXOs] stops at the first such record: the batch holds
    the [Set]s of the records before it and nothing else from this call, no
    delete of a created output among them; the wrapped error is logged, and
    the call returns as it does on success, handing the caller the batch
    only. *)
Theorem ReverseAccountUTXOs_encode_error_aborts (order : list string) (w : Wallet)
    (batch : list db.Op) (b : legacy.Block) (out : accountOutput) (e : error) :
  out ∈ loadAccountInfo Sum256 Unmarshal order w (reverseOuts (legacy.Transactions b)) →
  Marshal (utxoOf out) = inr e →
  ∃ pre out' e' post,
    loadAccountInfo Sum256 Unmarshal order w (reverseOuts (legacy.Transactions b))
      = pre ++ out' :: post
    ∧ (∀ ao, ao ∈ pre → ∃ rawUTXO, Marshal (utxoOf ao) = inl rawUTXO)
    ∧ Marshal (utxoOf out') = inr e'
    ∧ ReverseAccountUTXOs Sum256 Unmarshal Marshal order w batch b
      = Returns {| batch := batch ++ (upsertConfirmedAccountOutputs Marshal pre b []).1;
                   log := [{| logErr := Wrap e' "failed marshal accountutxo";
                              logMsg := "reversing account spent and retire outputs" |}] |}
    ∧ (∀ op, op ∈ (upsertConfirmedAccountOutputs Marshal pre b []).1 →
         ¬ isDelete op
         ∧ ∃ ao rawUTXO, ao ∈ pre ∧ Marshal (utxoOf ao) = inl rawUTXO
                         ∧ op = setOp (OutputID (raw ao)) rawUTXO)
    ∧ callerView (ReverseAccountUTXOs Sum256 Unmarshal Marshal order w batch b)
      = Some (batch ++ (upsertConfirmedAccountOutputs Marshal pre b []).1).
Proof.
  intros Hout He.
  destruct (first_failure _ _ _ Hout He) as (pre & out' & e' & post & Hsplit & Hpre & Hout').
  exists pre, out', e', post.
  assert (ReverseAccountUTXOs Sum256 Unmarshal Marshal order w batch b
      = Returns {| batch := batch ++ (upsertConfirmedAccountOutputs Marshal pre b []).1;
                   log := [{| logErr := Wrap e' "failed marshal accountutxo";
                              logMsg := "reversing account spent and retire outputs" |}] |})
    as Hrun.
  { unfold ReverseAccountUTXOs. rewrite Hsplit. by rewrite (upsert_fails pre post out' e'). }
  split; [done|]. split; [done|]. split; [done|]. split; [exact Hrun|]. split.
  - intros op Hop. pose proof (upsert_ops pre b op Hop) as (ao & v & Hao & Hv & ->).
    split; [by intros Hdel|]. by exists ao, v.
  - by rewrite Hrun.
Qed.

(** ** Confirmation followed by reversal *)

Lemma Build_sets_created (order : list string) (w : Wallet) (b : legacy.Block)
    (outs : list rawOutput) (op : db.Op) :
  op ∈ (upsertConfirmedAccountOutputs Marshal
          (loadAccountInfo Sum256 Unmarshal order w outs) b []).1 →
  ∃ ro, ro ∈ outs ∧ opKey op = account.AccountUTXOKey (OutputID ro).
Proof.
  intros Hop. apply upsert_ops in Hop as (ao & v & Hao & _ & ->).
  exists (raw ao). split; [|done]. by apply loadAccountInfo_raw in Hao.
Qed.

Lemma Reverse_sets_spent (order : list string) (w : Wallet) (b : legacy.Block) (op : db.Op) :
  op ∈ (upsertConfirmedAccountOutputs Marshal
          (loadAccountInfo Sum256 Unmarshal order w (reverseOuts (legacy.Transactions b)))
          b []).1 →
  ∃ id, id ∈ prevoutDBKeys (legacy.Transactions b) ∧ opKey op = account.AccountUTXOKey id.
Proof.
  intros Hop. apply upsert_ops in Hop as (ao & v & Hao & _ & ->).
  exists (OutputID (raw ao)). split; [|done].
  apply reverseOuts_spent. by apply loadAccountInfo_raw in Hao.
Qed.

Lemma delOps_keys (ids : list Hash) (op : db.Op) :
  op ∈ map delOp ids → isDelete op ∧ ∃ id, id ∈ ids ∧ opKey op = account.AccountUTXOKey id.
Proof. intros Hop. apply list_elem_of_fmap in Hop as (id & -> & Hid). split; [done|]. eauto. Qed.

(** Confirmation of a well-formed block committed to the store, then
    reversal of the same block committed on top, key by key: untouched
    keys, created keys, and spent keys in terms of what the restoring stage
    of reversal wrote. *)
Lemma Reverse_after_Build_keys (order1 order2 : list string) (store : gmap account.Key string)
    (b : legacy.Block) :
  wellFormed b →
  ∃ outs st1 st2,
    newOuts (legacy.Transactions b) = Some outs
    ∧ BuildAccountUTXOs Sum256 Unmarshal Marshal order1 {| DB := store |} [] b = Returns st1
    ∧ ReverseAccountUTXOs Sum256 Unmarshal Marshal order2
        {| DB := db.Write (batch st1) store |} [] b = Returns st2
    ∧ let store1 := db.Write (batch st1) store in
      let store2 := db.Write (batch st2) store1 in
      let restored :=
        loadAccountInfo Sum256 Unmarshal order2 {| DB := store1 |}
          (reverseOuts (legacy.Transactions b)) in
      (∀ k, (∀ id, id ∈ prevoutDBKeys (legacy.Transactions b) → k ≠ account.AccountUTXOKey id) →
            (∀ ro, ro ∈ outs → k ≠ account.AccountUTXOKey (OutputID ro)) →
            store2 !! k = store !! k)
      ∧ ((∀ ao, ao ∈ restored → ∃ rawUTXO, Marshal (utxoOf ao) = inl rawUTXO) →
         log st2 = []
         ∧ ∀ ro, ro ∈ outs → store2 !! account.AccountUTXOKey (OutputID ro) = None)
      ∧ (∀ id, id ∈ prevoutDBKeys (legacy.Transactions b) →
               (∀ ro, ro ∈ outs → OutputID ro ≠ id) →
               store2 !! account.AccountUTXOKey id
               = db.Write (upsertConfirmedAccountOutputs Marshal restored b []).1 ∅
                   !! account.AccountUTXOKey id).
Proof.
  intros Hwf.
  destruct (newOuts_total b Hwf) as [outs Hnew].
  destruct (Build_spec order1 {| DB := store |} [] b outs Hnew) as [lg1 Hb].
  rewrite app_nil_l in Hb.
  set (st1 := {| batch := map delOp (prevoutDBKeys (legacy.Transactions b))
                   ++ (upsertConfirmedAccountOutputs Marshal
                         (loadAccountInfo Sum256 Unmarshal order1 {| DB := store |} outs) b []).1;
                 log := lg1 |}) in *.
  set (store1 := db.Write (batch st1) store).
  set (restored := loadAccountInfo Sum256 Unmarshal order2 {| DB := store1 |}
                     (reverseOuts (legacy.Transactions b))).
  set (sets2 := (upsertConfirmedAccountOutputs Marshal restored b []).1).
  (* what the first store holds under a key that is spent and not created *)
  assert (∀ id, id ∈ prevoutDBKeys (legacy.Transactions b) →
                (∀ ro, ro ∈ outs → OutputID ro ≠ id) →
                store1 !! account.AccountUTXOKey id = None) as Hspent1.
  { intros id Hid Hnc. unfold store1, st1. cbn [batch]. rewrite Write_app.
    rewrite Write_lookup_untouched.
    - apply Write_deletes_lookup.
      + intros op Hop. by apply delOps_keys in Hop as [? _].
      + by apply (list_elem_of_fmap_2 delOp).
    - intros op Hop Hk. apply Build_sets_created in Hop as (ro & Hro & Hkey).
      rewrite Hkey in Hk. injection Hk as Hk. by apply (Hnc ro). }
  (* the two shapes of the batch of reversal *)
  assert (∃ st2 dels,
    ReverseAccountUTXOs Sum256 Unmarshal Marshal order2 {| DB := store1 |} [] b = Returns st2
    ∧ batch st2 = sets2 ++ dels
    ∧ (∀ op, op ∈ dels → isDelete op ∧ ∃ ro, ro ∈ outs
                          ∧ opKey op = account.AccountUTXOKey (OutputID ro))
    ∧ ((∀ ao, ao ∈ restored → ∃ rawUTXO, Marshal (utxoOf ao) = inl rawUTXO) →
       log st2 = [] ∧ dels = map (λ ro, delOp (OutputID ro)) outs))
    as (st2 & dels & Hr & Hbatch2 & Hdels & Hok).
  { destruct (upsertConfirmedAccountOutputs Marshal restored b []).2 as [err|] eqn:Herr.
    - eexists _, []. split; [by apply Reverse_spec_err|]. simpl.
      split; [by rewrite app_nil_r|]. split.
      + intros op Hop. by apply elem_of_nil in Hop.
      + intros Hall. apply (upsert_ok restored b) in Hall.
        fold restored in Herr. congruence.
    - eexists _, _. split; [by apply (Reverse_spec_ok _ _ _ _ outs)|]. simpl.
      split; [done|]. split; [|done].
      intros op Hop. apply list_elem_of_fmap in Hop as (ro & -> & Hro).
      split; [done|]. by exists ro. }
  exists outs, st1, st2. split; [done|]. split; [exact Hb|]. split; [exact Hr|].
  simpl. fold store1. fold restored. fold sets2. split; [|split].
  - intros k Hns Hnc. rewrite Hbatch2, Write_app.
    rewrite (Write_lookup_untouched dels).
    2:{ intros op Hop. apply Hdels in Hop as (_ & ro & Hro & ->). intros <-.
        by apply (Hnc ro). }
    rewrite (Write_lookup_untouched sets2).
    2:{ intros op Hop. apply Reverse_sets_spent in Hop as (id & Hid & ->). intros <-.
        by apply (Hns id). }
    unfold store1, st1. cbn [batch]. rewrite Write_app.
    rewrite Write_lookup_untouched.
    2:{ intros op Hop. apply Build_sets_created in Hop as (ro & Hro & ->). intros <-.
        by apply (Hnc ro). }
    apply Write_lookup_untouched.
    intros op Hop. apply delOps_keys in Hop as (_ & id & Hid & ->). intros <-.
    by apply (Hns id).
  - intros Hall. destruct (Hok Hall) as [Hlog ->]. split; [done|].
    intros ro Hro. rewrite Hbatch2, Write_app. apply Write_deletes_lookup.
    + intros op Hop. by apply list_elem_of_fmap in Hop as (ro' & -> & _).
    + by apply (list_elem_of_fmap_2 (λ ro, delOp (OutputID ro))).
  - intros id Hid Hnc. rewrite Hbatch2, Write_app.
    rewrite Write_lookup_untouched.
    + apply Write_lookup_congr. rewrite lookup_empty. by apply Hspent1.
    + intros op Hop Hk. apply Hdels in Hop as (_ & ro & Hro & Hkey).
      rewrite Hkey in Hk. injection Hk as Hk. by apply (Hnc ro).
Qed.

(** ** Confirmation applied twice *)

Lemma Write_lookup_touched (ops : list db.Op) (m m' : gmap account.Key string)
    (k : account.Key) :
  (∃ op, op ∈ ops ∧ opKey op = k) → db.Write ops m !! k = db.Write ops m' !! k.
Proof.
  induction ops as [|op ops IH] using rev_ind; intros (op' & Hin & Hk).
  - by apply elem_of_nil in Hin.
  - rewrite !Write_app. simpl.
    destruct (decide (opKey op = k)) as [Heq|Hne].
    + destruct op as [k' v|k']; simpl in *; subst k'.
      * by rewrite !lookup_insert_eq.
      * by rewrite !lookup_delete_eq.
    + apply apply_lookup_congr, IH. exists op'. split; [|done].
      apply elem_of_app in Hin as [Hin|Hin]; [done|].
      apply list_elem_of_singleton in Hin. congruence.
Qed.

(** Committing a batch on top of itself changes nothing. *)
Lemma Write_idem (ops : list db.Op) (m : gmap account.Key string) :
  db.Write ops (db.Write ops m) = db.Write ops m.
Proof.
  apply map_eq. intros k.
  destruct (decide (Exists (λ op, opKey op = k) ops)) as [Hex|Hnex].
  - apply Write_lookup_touched. by apply Exists_exists in Hex.
  - apply Write_lookup_untouched. intros op Hop Hk. apply Hnex.
    apply Exists_exists. by exists op.
Qed.

(** Resolution reads the registry and the account entries only. *)
Lemma loadAccountInfo_registry (order : list string) (w w' : Wallet) (outs : list rawOutput) :
  (∀ h, DB w !! account.AccountCPKey h = DB w' !! account.AccountCPKey h) →
  (∀ a, DB w !! account.AccountKey a = DB w' !! account.AccountKey a) →
  loadAccountInfo Sum256 Unmarshal order w outs = loadAccountInfo Sum256 Unmarshal order w' outs.
Proof.
  intros Hcp Hacc. unfold loadAccountInfo. f_equal.
  generalize (account.CtrlProgram_zero, @nil accountOutput).
  induction order as [|s order IH]; intros st; [done|].
  rewrite !resolveLoop_cons, IH. f_equal.
  unfold resolveScript. destruct st as [cp res]. rewrite Hcp.
  destruct (DB w' !! account.AccountCPKey (Sum256 s)) as [bytes|]; [|done].
  destruct (Unmarshal bytes cp) as [cp' [e|]]; [done|]. by rewrite Hacc.
Qed.

(** X13.  With the same iteration order in both calls, confirming a well-formed
    block a second time on the committed store appends the same operations
    and leaves the store as the first commit left it. *)
Lemma Build_twice_same_order (order : list string) (store : gmap account.Key string)
    (b : legacy.Block) :
  wellFormed b →
  ∃ st,
    BuildAccountUTXOs Sum256 Unmarshal Marshal order {| DB := store |} [] b = Returns st
    ∧ BuildAccountUTXOs Sum256 Unmarshal Marshal order
        {| DB := db.Write (batch st) store |} [] b = Returns st
    ∧ db.Write (batch st) (db.Write (batch st) store) = db.Write (batch st) store.
Proof.
  intros Hwf. destruct (newOuts_total b Hwf) as [outs Hnew].
  destruct (BuildAccountUTXOs Sum256 Unmarshal Marshal order {| DB := store |} [] b)
    as [st|] eqn:Hb.
  2:{ destruct (Build_spec order {| DB := store |} [] b outs Hnew) as [lg Hb'].
      congruence. }
  exists st. split; [done|]. split; [|apply Write_idem].
  assert (∀ op, op ∈ batch st → ∃ id, opKey op = account.AccountUTXOKey id) as Hkeys.
  { destruct (Build_spec order {| DB := store |} [] b outs Hnew) as [lg Hb'].
    rewrite Hb in Hb'. injection Hb' as ->. simpl.
    intros op [Hop|Hop]%elem_of_app.
    - apply delOps_keys in Hop as (_ & id & _ & ->). eauto.
    - apply Build_sets_created in Hop as (ro & _ & ->). eauto. }
  rewrite <- Hb. unfold BuildAccountUTXOs. rewrite Hnew.
  rewrite (loadAccountInfo_registry order {| DB := db.Write (batch st) store |}
             {| DB := store |}); [done| |].
  - intros h. simpl. apply Write_lookup_untouched. intros op Hop Hk.
    destruct (Hkeys op Hop) as [id Hid]. congruence.
  - intros a. simpl. apply Write_lookup_untouched. intros op Hop Hk.
    destruct (Hkeys op Hop) as [id Hid]. congruence.
Qed.

(** X14.  A script whose registry record decodes to the same [cp] whatever the
    [cp] handed to the decoder held: its outputs get the same annotation in
    any two passes that read this record for it. *)
Lemma loadAccountInfo_isolated_complete_record (order1 order2 : list string) (w1 w2 : Wallet)
    (outs1 outs2 : list rawOutput) (s bytes : string) (ao1 ao2 : accountOutput) :
  DB w1 !! account.AccountCPKey (Sum256 s) = Some bytes →
  DB w2 !! account.AccountCPKey (Sum256 s) = Some bytes →
  (∀ cp cp', Unmarshal bytes cp = Unmarshal bytes cp') →
  ao1 ∈ loadAccountInfo Sum256 Unmarshal order1 w1 outs1 →
  ao2 ∈ loadAccountInfo Sum256 Unmarshal order2 w2 outs2 →
  ControlProgram (raw ao1) = s → ControlProgram (raw ao2) = s →
  AccountID ao1 = AccountID ao2 ∧ keyIndex ao1 = keyIndex ao2 ∧ change ao1 = change ao2.
Proof.
  intros H1 H2 Hind Hao1 Hao2 Hs1 Hs2.
  destruct (loadAccountInfo_provenance _ _ _ _ Hao1)
    as (cp0 & cp1 & (bytes1 & Hrec1 & Hdec1 & _) & _ & ->).
  destruct (loadAccountInfo_provenance _ _ _ _ Hao2)
    as (cp0' & cp1' & (bytes2 & Hrec2 & Hdec2 & _) & _ & ->).
  simpl in *. rewrite Hs1, H1 in Hrec1. rewrite Hs2, H2 in Hrec2.
  injection Hrec1 as <-. injection Hrec2 as <-.
  rewrite (Hind cp0 cp0'), Hdec2 in Hdec1. by injection Hdec1 as ->.
Qed.

End indexer.

(** ** The annotated outputs *)

Section annotation.

Variable IsUnspendable : string → bool.
Variable Unmarshal : string → option error.

Lemma buildAnnotatedOutput_spec (tx : legacy.Tx) (idx : nat) (orig : legacy.TxOutput) :
  legacy.Outputs tx !! idx = Some orig →
  idx < length (bc.ResultIds (legacy.bcTx tx)) →
  ∃ out, query.buildAnnotatedOutput IsUnspendable Unmarshal tx idx = Some out
    ∧ query.ControlProgram out = legacy.ControlProgram orig
    ∧ query.Type_ out
      = (if IsUnspendable (legacy.ControlProgram orig) then "retire" else "control")
    ∧ query.ReferenceData out
      = (if query.IsValidJSON Unmarshal (legacy.ReferenceData orig)
         then Some (legacy.ReferenceData orig) else Some query.emptyJSONObject).
Proof.
  intros Horig Hidx. unfold query.buildAnnotatedOutput, legacy.OutputID.
  destruct (lookup_lt_is_Some_2 _ _ Hidx) as [outid Houtid].
  rewrite Horig, Houtid. simpl.
  eexists. split; [done|].
  destruct (query.IsValidJSON Unmarshal (legacy.ReferenceData orig)); simpl;
    destruct (IsUnspendable (legacy.ControlProgram orig)); done.
Qed.


End annotation.

(** * The claims on the sample data *)

(** C10.  In the store [ex.w] the script s2 has one registry record and one
    account entry.  Resolved alone, its output o2 gets key index 0 and
    change false; resolved in a batch with o1, whose script s1 is visited
    first, it gets key index 5 and change true, the values decoded for s1:
    the [cp] declared before the loop keeps them, and the record of s2 names
    no field to replace them. *)
Theorem loadAccountInfo_owner_depends_on_other_scripts :
  rangeOrder (groupByScript [ex.o2]) ["s2"]
  ∧ rangeOrder (groupByScript [ex.o1; ex.o2]) ["s1"; "s2"]
  ∧ loadAccountInfo ex.Sum256 ex.Unmarshal ["s2"] ex.w [ex.o2]
    = [annotate ex.cpPartial ex.o2]
  ∧ loadAccountInfo ex.Sum256 ex.Unmarshal ["s1"; "s2"] ex.w [ex.o1; ex.o2]
    = [annotate ex.cpFull ex.o1; annotate ex.cpFull ex.o2].
Proof. repeat split; compute_done. Qed.

(** C2.  Block 3 confirmed on the sample registry with the scripts visited
    in the order s1, s2, and confirmed again on the committed store with the
    order s2, s1: the record of o2 has key index 5 and change true after the
    first commit, key index 0 and change false after the second. *)
Theorem Build_twice_other_order_diverges :
  newOuts (legacy.Transactions ex.block3) = Some [ex.o1; ex.o2]
  ∧ rangeOrder (groupByScript [ex.o1; ex.o2]) ["s1"; "s2"]
  ∧ rangeOrder (groupByScript [ex.o1; ex.o2]) ["s2"; "s1"]
  ∧ BuildAccountUTXOs ex.Sum256 ex.Unmarshal ex.Marshal ["s1"; "s2"]
      {| DB := ex.registry |} [] ex.block3 = Returns ex.st3a
  ∧ BuildAccountUTXOs ex.Sum256 ex.Unmarshal ex.Marshal ["s2"; "s1"]
      {| DB := db.Write (batch ex.st3a) ex.registry |} [] ex.block3 = Returns ex.st3b
  ∧ db.Write (batch ex.st3a) ex.registry !! account.AccountUTXOKey "o2"
    = Some "o2,acc1,5,true"
  ∧ db.Write (batch ex.st3b) (db.Write (batch ex.st3a) ex.registry)
      !! account.AccountUTXOKey "o2"
    = Some "o2,acc1,0,false".
Proof. repeat split; compute_done. Qed.

(** C1, as stated, fails, in two ways.  Block 1 creates o1 for the tracked
    account acc1 and spends nothing; the store holds a record for o1 before
    confirmation; after confirmation and reversal the key of o1 holds no
    record.  Block 2 spends o1 and creates o2, both of scripts of the
    tracked account acc1; the store holds under o1 a record that is not the
    encoding of o1; after confirmation and reversal the key of o1 holds the
    encoding, not what it held. *)
Lemma Reverse_after_Build_changes_records :
  (newOuts (legacy.Transactions ex.block1) = Some [ex.rawOut "o1" "s1" "t1" 0]
   ∧ rangeOrder (groupByScript [ex.rawOut "o1" "s1" "t1" 0]) ["s1"]
   ∧ rangeOrder (groupByScript []) []
   ∧ raw <$> loadAccountInfo ex.Sum256 ex.Unmarshal ["s1"] {| DB := ex.storeLocal |}
               [ex.rawOut "o1" "s1" "t1" 0]
     = [ex.rawOut "o1" "s1" "t1" 0]
   ∧ reverseOuts (legacy.Transactions ex.block1) = []
   ∧ BuildAccountUTXOs ex.Sum256 ex.Unmarshal ex.Marshal ["s1"]
       {| DB := ex.storeLocal |} [] ex.block1 = Returns ex.st1
   ∧ ReverseAccountUTXOs ex.Sum256 ex.Unmarshal ex.Marshal []
       {| DB := db.Write (batch ex.st1) ex.storeLocal |} [] ex.block1 = Returns ex.st1r
   ∧ ex.storeLocal !! account.AccountUTXOKey "o1" = Some "local record"
   ∧ db.Write (batch ex.st1r) (db.Write (batch ex.st1) ex.storeLocal)
       !! account.AccountUTXOKey "o1" = None)
  ∧ (newOuts (legacy.Transactions ex.block2) = Some [ex.rawOut "o2" "s2" "t2" 0]
     ∧ reverseOuts (legacy.Transactions ex.block2) = [ex.rawOut "o1" "s1" "t2" 0]
     ∧ rangeOrder (groupByScript [ex.rawOut "o2" "s2" "t2" 0]) ["s2"]
     ∧ rangeOrder (groupByScript [ex.rawOut "o1" "s1" "t2" 0]) ["s1"]
     ∧ raw <$> loadAccountInfo ex.Sum256 ex.Unmarshal ["s2"] {| DB := ex3.storeStale |}
                 [ex.rawOut "o2" "s2" "t2" 0]
       = [ex.rawOut "o2" "s2" "t2" 0]
     ∧ raw <$> loadAccountInfo ex.Sum256 ex.Unmarshal ["s1"] {| DB := ex3.storeStale |}
                 [ex.rawOut "o1" "s1" "t2" 0]
       = [ex.rawOut "o1" "s1" "t2" 0]
     ∧ BuildAccountUTXOs ex.Sum256 ex.Unmarshal ex.Marshal ["s2"]
         {| DB := ex3.storeStale |} [] ex.block2 = Returns ex3.st2
     ∧ ReverseAccountUTXOs ex.Sum256 ex.Unmarshal ex.Marshal ["s1"]
         {| DB := db.Write (batch ex3.st2) ex3.storeStale |} [] ex.block2 = Returns ex3.st2r
     ∧ ex3.storeStale !! account.AccountUTXOKey "o1" = Some "stale record"
     ∧ db.Write (batch ex3.st2r) (db.Write (batch ex3.st2) ex3.storeStale)
         !! account.AccountUTXOKey "o1" = Some "o1,acc1,5,true").
Proof. repeat split; compute_done. Qed.

(** C3, as stated, fails: nothing the caller holds after
    [ReverseAccountUTXOs] tells whether an encoding failed.  Block 5 spends
    o1 and creates nothing; with the sample registry the restored record of
    o1 fails to encode, with an empty store there is nothing to encode, and
    both calls hand back the batch as it was. *)
Lemma ReverseAccountUTXOs_error_not_propagated :
  ¬ ∃ f : option (list db.Op) → bool,
      ∀ w : Wallet,
        f (callerView (ReverseAccountUTXOs ex.Sum256 ex.Unmarshal ex.MarshalFails
                         ["s1"] w [] ex.block5)) = true
        ↔ ∃ out e,
            out ∈ loadAccountInfo ex.Sum256 ex.Unmarshal ["s1"] w
                    (reverseOuts (legacy.Transactions ex.block5))
            ∧ ex.MarshalFails (utxoOf out) = inr e.
Proof.
  intros [f Hf].
  destruct (Hf ex.w) as [_ Hfail].
  destruct (Hf {| DB := ∅ |}) as [Hnone _].
  assert (f (Some []) = true) as Hview.
  { apply Hfail.
    exists (annotate ex.cpFull (ex.rawOut "o1" "s1" "t5" 0)), (ErrorString "json: unsupported value").
    split; [vm_compute; left|done]. }
  destruct (Hnone Hview) as (out & e & Hout & _).
  vm_compute in Hout. by apply elem_of_nil in Hout.
Qed.

(** ** Instances of the theorems *)

Lemma wellFormed_block2 : wellFormed ex.block2.
Proof. intros tx Htx. apply list_elem_of_singleton in Htx as ->. simpl. lia. Defined.

Lemma loadAccountInfo_same_script_same_owner_witness :
  rangeOrder (groupByScript [ex.o1; ex.o5]) ["s1"]
  ∧ annotate ex.cpFull ex.o1 ∈ loadAccountInfo ex.Sum256 ex.Unmarshal ["s1"] ex.w [ex.o1; ex.o5]
  ∧ annotate ex.cpFull ex.o5 ∈ loadAccountInfo ex.Sum256 ex.Unmarshal ["s1"] ex.w [ex.o1; ex.o5]
  ∧ ControlProgram (raw (annotate ex.cpFull ex.o1))
    = ControlProgram (raw (annotate ex.cpFull ex.o5))
  ∧ ((AccountID (annotate ex.cpFull ex.o1) = AccountID (annotate ex.cpFull ex.o5)
      ∧ keyIndex (annotate ex.cpFull ex.o1) = keyIndex (annotate ex.cpFull ex.o5)
      ∧ change (annotate ex.cpFull ex.o1) = change (annotate ex.cpFull ex.o5))
     ∧ ∃ bytes cp0 cp1,
         DB ex.w !! account.AccountCPKey
                      (ex.Sum256 (ControlProgram (raw (annotate ex.cpFull ex.o1))))
         = Some bytes
         ∧ ex.Unmarshal bytes cp0 = (cp1, None)
         ∧ annotate ex.cpFull ex.o1 = annotate cp1 (raw (annotate ex.cpFull ex.o1))
         ∧ annotate ex.cpFull ex.o5 = annotate cp1 (raw (annotate ex.cpFull ex.o5))).
Proof.
  assert (rangeOrder (groupByScript [ex.o1; ex.o5]) ["s1"]) as Hord by compute_done.
  assert (annotate ex.cpFull ex.o1
            ∈ loadAccountInfo ex.Sum256 ex.Unmarshal ["s1"] ex.w [ex.o1; ex.o5]) as H1
    by (vm_compute; left).
  assert (annotate ex.cpFull ex.o5
            ∈ loadAccountInfo ex.Sum256 ex.Unmarshal ["s1"] ex.w [ex.o1; ex.o5]) as H5
    by (vm_compute; right; left).
  split; [exact Hord|]. split; [exact H1|]. split; [exact H5|]. split; [reflexivity|].
  exact (loadAccountInfo_same_script_same_owner ex.Sum256 ex.Unmarshal
           ["s1"] ex.w [ex.o1; ex.o5] _ _ Hord H1 H5 eq_refl).
Defined.

Lemma loadAccountInfo_decode_error_skips_witness :
  DB ex.w !! account.AccountCPKey (ex.Sum256 "s3") = Some ex.recBroken
  ∧ (∀ cp0, is_Some (ex.Unmarshal ex.recBroken cp0).2)
  ∧ resolveLoop ex.Sum256 ex.Unmarshal ex.w (groupByScript [ex.o1]) ["s3"; "s1"]
      (account.CtrlProgram_zero, [])
    = resolveLoop ex.Sum256 ex.Unmarshal ex.w (groupByScript [ex.o1]) ["s1"]
        ((ex.Unmarshal ex.recBroken account.CtrlProgram_zero).1, []).
Proof.
  assert (DB ex.w !! account.AccountCPKey (ex.Sum256 "s3") = Some ex.recBroken) as Hrec
    by reflexivity.
  assert (∀ cp0, is_Some (ex.Unmarshal ex.recBroken cp0).2) as Hfail
    by (intros cp0; vm_compute; eauto).
  split; [exact Hrec|]. split; [exact Hfail|].
  exact (proj1 (loadAccountInfo_decode_error_skips ex.Sum256 ex.Unmarshal ex.w
                  (groupByScript [ex.o1]) "s3" ex.recBroken ["s1"]
                  account.CtrlProgram_zero [] Hrec Hfail)).
Defined.

Lemma BuildAccountUTXOs_unregistered_not_written_witness :
  newOuts (legacy.Transactions ex.block2) = Some [ex.rawOut "o2" "s2" "t2" 0]
  ∧ contentAddressed [ex.rawOut "o2" "s2" "t2" 0]
  ∧ ex.rawOut "o2" "s2" "t2" 0 ∈ [ex.rawOut "o2" "s2" "t2" 0]
  ∧ (∅ : gmap account.Key string)
      !! account.AccountCPKey (ex.Sum256 (ControlProgram (ex.rawOut "o2" "s2" "t2" 0))) = None
  ∧ ∃ st added,
      BuildAccountUTXOs ex.Sum256 ex.Unmarshal ex.Marshal ["s2"] {| DB := ∅ |} [] ex.block2
      = Returns st
      ∧ batch st = [] ++ added
      ∧ ∀ rawUTXO,
          db.Set_ (account.AccountUTXOKey (OutputID (ex.rawOut "o2" "s2" "t2" 0))) rawUTXO
            ∉ added.
Proof.
  assert (newOuts (legacy.Transactions ex.block2) = Some [ex.rawOut "o2" "s2" "t2" 0]) as Hnew
    by reflexivity.
  assert (contentAddressed [ex.rawOut "o2" "s2" "t2" 0]) as Hca.
  { intros ro1 ro2 H1 H2 _. apply list_elem_of_singleton in H1, H2. by subst. }
  assert (ex.rawOut "o2" "s2" "t2" 0 ∈ [ex.rawOut "o2" "s2" "t2" 0]) as Hin by left.
  split; [exact Hnew|]. split; [exact Hca|]. split; [exact Hin|]. split; [reflexivity|].
  exact (BuildAccountUTXOs_unregistered_not_written ex.Sum256 ex.Unmarshal ex.Marshal
           ["s2"] {| DB := ∅ |} [] ex.block2 _ _ Hnew Hca Hin eq_refl).
Defined.

Lemma BuildAccountUTXOs_deletes_spent_witness :
  wellFormed ex.block2
  ∧ ex.tx2 ∈ legacy.Transactions ex.block2
  ∧ "i1" ∈ bc.InputIDs (legacy.bcTx ex.tx2)
  ∧ bc.Tx_Spend (legacy.bcTx ex.tx2) "i1" = inl {| bc.SpentOutputId := "o1" |}
  ∧ ∃ st sets,
      BuildAccountUTXOs ex.Sum256 ex.Unmarshal ex.Marshal ["s2"] ex.w [] ex.block2 = Returns st
      ∧ batch st = [] ++ map delOp (prevoutDBKeys (legacy.Transactions ex.block2)) ++ sets
      ∧ (∀ op, op ∈ sets → ¬ isDelete op)
      ∧ db.Delete (account.AccountUTXOKey (bc.SpentOutputId {| bc.SpentOutputId := "o1" |}))
          ∈ map delOp (prevoutDBKeys (legacy.Transactions ex.block2))
      ∧ ∀ m : gmap account.Key string,
          m !! account.AccountUTXOKey (bc.SpentOutputId {| bc.SpentOutputId := "o1" |}) = None →
          db.Write [db.Delete (account.AccountUTXOKey
                                 (bc.SpentOutputId {| bc.SpentOutputId := "o1" |}))] m = m.
Proof.
  assert (ex.tx2 ∈ legacy.Transactions ex.block2) as Htx by left.
  assert ("i1" ∈ bc.InputIDs (legacy.bcTx ex.tx2)) as Hinp by left.
  split; [exact wellFormed_block2|]. split; [exact Htx|]. split; [exact Hinp|].
  split; [reflexivity|].
  exact (BuildAccountUTXOs_deletes_spent ex.Sum256 ex.Unmarshal ex.Marshal
           ["s2"] ex.w [] ex.block2 ex.tx2 "i1" _ wellFormed_block2 Htx Hinp eq_refl).
Defined.

Lemma BuildAccountUTXOs_skips_retirements_witness :
  wellFormed ex.block2
  ∧ ∃ outs st added,
      newOuts (legacy.Transactions ex.block2) = Some outs
      ∧ BuildAccountUTXOs ex.Sum256 ex.Unmarshal ex.Marshal ["s2"] ex.w [] ex.block2 = Returns st
      ∧ batch st = [] ++ added
      ∧ (∀ ro, ro ∈ outs →
           ∃ tx j out resOut, tx ∈ legacy.Transactions ex.block2
             ∧ legacy.Outputs tx !! j = Some out
             ∧ bc.ResultIds (legacy.bcTx tx) !! j = Some (OutputID ro)
             ∧ bc.Entries (legacy.bcTx tx) !! OutputID ro = Some (bc.OutputEntry resOut)
             ∧ ro = newOut tx j out (OutputID ro) resOut)
      ∧ (∀ id rawUTXO, db.Set_ (account.AccountUTXOKey id) rawUTXO ∈ added →
           ∃ tx j resOut, tx ∈ legacy.Transactions ex.block2
             ∧ j < length (legacy.Outputs tx)
             ∧ bc.ResultIds (legacy.bcTx tx) !! j = Some id
             ∧ bc.Entries (legacy.bcTx tx) !! id = Some (bc.OutputEntry resOut))
      ∧ (∀ id, (∀ tx resOut, tx ∈ legacy.Transactions ex.block2 →
                  bc.Entries (legacy.bcTx tx) !! id ≠ Some (bc.OutputEntry resOut)) →
               ∀ rawUTXO, db.Set_ (account.AccountUTXOKey id) rawUTXO ∉ added).
Proof.
  split; [exact wellFormed_block2|].
  exact (BuildAccountUTXOs_skips_retirements ex.Sum256 ex.Unmarshal ex.Marshal
           ["s2"] ex.w [] ex.block2 wellFormed_block2).
Defined.

Lemma ReverseAccountUTXOs_encode_error_aborts_witness :
  annotate ex.cpFull (ex.rawOut "o1" "s1" "t5" 0)
    ∈ loadAccountInfo ex.Sum256 ex.Unmarshal ["s1"] ex.w
        (reverseOuts (legacy.Transactions ex.block5))
  ∧ ex.MarshalFails (utxoOf (annotate ex.cpFull (ex.rawOut "o1" "s1" "t5" 0)))
    = inr (ErrorString "json: unsupported value")
  ∧ ∃ pre out' e' post,
      loadAccountInfo ex.Sum256 ex.Unmarshal ["s1"] ex.w
        (reverseOuts (legacy.Transactions ex.block5))
      = pre ++ out' :: post
      ∧ (∀ ao, ao ∈ pre → ∃ rawUTXO, ex.MarshalFails (utxoOf ao) = inl rawUTXO)
      ∧ ex.MarshalFails (utxoOf out') = inr e'
      ∧ ReverseAccountUTXOs ex.Sum256 ex.Unmarshal ex.MarshalFails ["s1"] ex.w [] ex.block5
        = Returns {| batch := [] ++ (upsertConfirmedAccountOutputs ex.MarshalFails pre
                                       ex.block5 []).1;
                     log := [{| logErr := Wrap e' "failed marshal accountutxo";
                                logMsg := "reversing account spent and retire outputs" |}] |}
      ∧ (∀ op, op ∈ (upsertConfirmedAccountOutputs ex.MarshalFails pre ex.block5 []).1 →
           ¬ isDelete op
           ∧ ∃ ao rawUTXO, ao ∈ pre ∧ ex.MarshalFails (utxoOf ao) = inl rawUTXO
                           ∧ op = setOp (OutputID (raw ao)) rawUTXO)
      ∧ callerView (ReverseAccountUTXOs ex.Sum256 ex.Unmarshal ex.MarshalFails ["s1"] ex.w []
                      ex.block5)
        = Some ([] ++ (upsertConfirmedAccountOutputs ex.MarshalFails pre ex.block5 []).1).
Proof.
  assert (annotate ex.cpFull (ex.rawOut "o1" "s1" "t5" 0)
            ∈ loadAccountInfo ex.Sum256 ex.Unmarshal ["s1"] ex.w
                (reverseOuts (legacy.Transactions ex.block5))) as Hout
    by (vm_compute; left).
  split; [exact Hout|]. split; [reflexivity|].
  exact (ReverseAccountUTXOs_encode_error_aborts ex.Sum256 ex.Unmarshal ex.MarshalFails
           ["s1"] ex.w [] ex.block5 _ _ Hout eq_refl).
Defined.


(** * Further properties of the indexer *)

(** ** Extraction *)

(** X1.  The ids of the outputs reversal extracts as spent form, in order,
    a sublist of the ids whose keys confirmation deletes: reversal restores
    nothing that confirmation did not delete. *)
Theorem reverseOuts_ids_sublist (txs : list legacy.Tx) :
  (OutputID <$> reverseOuts txs) `sublist_of` prevoutDBKeys txs.
Proof.
  unfold reverseOuts, prevoutDBKeys.
  induction txs as [|tx txs IH]; simpl; [constructor|].
  rewrite fmap_app. apply sublist_app; [|exact IH].
  induction (bc.InputIDs (legacy.bcTx tx)) as [|inpID ids IHids]; simpl; [constructor|].
  unfold reverseOut at 1.
  destruct (bc.Tx_Spend (legacy.bcTx tx) inpID) as [sp|e]; [|exact IHids].
  destruct (bc.Entries (legacy.bcTx tx) !! bc.SpentOutputId sp) as [[resOut| | | |]|];
    simpl; try (by apply sublist_cons).
  by apply sublist_skip.
Qed.

(** Extraction of the created outputs returns only when every output
    position has a result id. *)
Lemma txNewOuts_Some_length (tx : legacy.Tx) (j : nat) (outputs : list legacy.TxOutput)
    (outs : list rawOutput) :
  txNewOuts tx j outputs = Some outs →
  outputs = [] ∨ j + length outputs ≤ length (bc.ResultIds (legacy.bcTx tx)).
Proof.
  revert j outs. induction outputs as [|out outputs IH]; intros j outs Hsome; [by left|].
  right. simpl in Hsome.
  destruct (bc.ResultIds (legacy.bcTx tx) !! j) as [rid|] eqn:Hrid; [|done].
  apply lookup_lt_Some in Hrid.
  assert (∃ outs', txNewOuts tx (S j) outputs = Some outs') as [outs' Hrec].
  { destruct (bc.Entries (legacy.bcTx tx) !! rid) as [[resOut| | | |]|]; eauto.
    destruct (legacy.OutputID tx j); [|done].
    destruct (txNewOuts tx (S j) outputs); [eauto|done]. }
  destruct (IH _ _ Hrec) as [->|Hlen]; simpl; lia.
Qed.

Lemma newOuts_Some_wellFormed (b : legacy.Block) (outs : list rawOutput) :
  newOuts (legacy.Transactions b) = Some outs → wellFormed b.
Proof.
  unfold wellFormed. revert outs.
  induction (legacy.Transactions b) as [|tx txs IH]; intros outs Hsome tx' Htx'.
  - by apply elem_of_nil in Htx'.
  - simpl in Hsome.
    destruct (txNewOuts tx 0 (legacy.Outputs tx)) as [outs1|] eqn:H1; [|done].
    destruct (newOuts txs) as [outs2|] eqn:H2; [|done].
    apply elem_of_cons in Htx' as [->|Htx']; [|by eapply IH].
    destruct (txNewOuts_Some_length _ _ _ _ H1) as [->|Hlen]; simpl in *; lia.
Qed.

Section indexer_more.

Variable Sum256 : string → string.
Variable Unmarshal : string → account.CtrlProgram → account.CtrlProgram * option error.
Variable Marshal : account.UTXO → string + error.

(** ** Ownership resolution *)

Lemma resolveLoop_mono (w : Wallet) (m : gmap string (list rawOutput)) (order : list string)
    (cp : account.CtrlProgram) (res : list accountOutput) (ao : accountOutput) :
  ao ∈ res → ao ∈ (resolveLoop Sum256 Unmarshal w m order (cp, res)).2.
Proof.
  revert cp res. induction order as [|s order IH]; intros cp res Hin; [done|].
  rewrite resolveLoop_cons.
  destruct (resolveScript_spec Sum256 Unmarshal w m cp res s) as (cp' & new & -> & _).
  apply IH, elem_of_app. by left.
Qed.

Lemma resolveLoop_complete (w : Wallet) (m : gmap string (list rawOutput)) (order : list string)
    (cp : account.CtrlProgram) (res : list accountOutput) (s bytes : string) (out : rawOutput) :
  s ∈ order →
  DB w !! account.AccountCPKey (Sum256 s) = Some bytes →
  (∀ cp0, ∃ cp1, Unmarshal bytes cp0 = (cp1, None)
                 ∧ is_Some (DB w !! account.AccountKey (account.cpAccountID cp1))) →
  out ∈ default [] (m !! s) →
  ∃ ao, ao ∈ (resolveLoop Sum256 Unmarshal w m order (cp, res)).2 ∧ raw ao = out.
Proof.
  intros Hs Hrec Hdec Hout. revert cp res.
  induction order as [|s' order IH]; intros cp res; [by apply elem_of_nil in Hs|].
  rewrite resolveLoop_cons.
  destruct (decide (s' = s)) as [->|Hne].
  - unfold resolveScript. rewrite Hrec.
    destruct (Hdec cp) as (cp1 & -> & [v Hacc]). rewrite Hacc.
    exists (annotate cp1 out). split; [|done].
    apply resolveLoop_mono, elem_of_app. right.
    by apply (list_elem_of_fmap_2 (annotate cp1)).
  - apply elem_of_cons in Hs as [Hs|Hs]; [congruence|].
    destruct (resolveScript_spec Sum256 Unmarshal w m cp res s') as (cp' & new & -> & _).
    by apply IH.
Qed.

(** X2.  An output is kept whenever its script has a registry record that
    decodes, whatever the decoder was handed, to an existing account: for
    any order in which the loop can visit the scripts, the result holds an
    annotated copy of it. *)
Theorem loadAccountInfo_complete (order : list string) (w : Wallet) (outs : list rawOutput)
    (out : rawOutput) (bytes : string) :
  rangeOrder (groupByScript outs) order →
  out ∈ outs →
  DB w !! account.AccountCPKey (Sum256 (ControlProgram out)) = Some bytes →
  (∀ cp0, ∃ cp1, Unmarshal bytes cp0 = (cp1, None)
                 ∧ is_Some (DB w !! account.AccountKey (account.cpAccountID cp1))) →
  ∃ ao, ao ∈ loadAccountInfo Sum256 Unmarshal order w outs ∧ raw ao = out.
Proof.
  intros [_ Hdom] Hout Hrec Hdec. unfold loadAccountInfo.
  assert (out ∈ default [] (groupByScript outs !! ControlProgram out)) as Hgrp
    by by apply groupByScript_elem.
  apply (resolveLoop_complete _ _ _ _ _ (ControlProgram out) bytes); try done.
  apply (elem_of_list_to_set (C := gset string)). rewrite Hdom. apply elem_of_dom.
  destruct (groupByScript outs !! ControlProgram out); [done|].
  by apply elem_of_nil in Hgrp.
Qed.

Lemma filter_disjoint_app {A : Type} (P Q : A → Prop) `{!∀ x, Decision (P x)}
    `{!∀ x, Decision (Q x)} (l : list A) :
  (∀ x, P x → Q x → False) →
  filter P l ++ filter Q l ≡ₚ filter (λ x, P x ∨ Q x) l.
Proof.
  intros Hdis. induction l as [|x l IH]; [done|].
  rewrite !filter_cons.
  destruct (decide (P x)) as [HP|HP], (decide (Q x)) as [HQ|HQ].
  - by destruct (Hdis x).
  - rewrite decide_True by auto. simpl. by rewrite IH.
  - rewrite decide_True by auto. rewrite <- Permutation_middle. by rewrite IH.
  - rewrite decide_False by tauto. done.
Qed.

Lemma resolveLoop_submseteq (w : Wallet) (outs : list rawOutput) (order : list string)
    (cp : account.CtrlProgram) (res : list accountOutput) :
  NoDup order →
  raw <$> (resolveLoop Sum256 Unmarshal w (groupByScript outs) order (cp, res)).2
  ⊆+ (raw <$> res) ++ filter (λ out, ControlProgram out ∈ order) outs.
Proof.
  revert cp res. induction order as [|s order IH]; intros cp res Hnd.
  - simpl. apply submseteq_inserts_r. done.
  - rewrite resolveLoop_cons. apply NoDup_cons in Hnd as [Hs Hnd].
    destruct (resolveScript_spec Sum256 Unmarshal w (groupByScript outs) cp res s)
      as (cp' & new & -> & Hnew).
    etrans; [by apply IH|].
    rewrite fmap_app, <- app_assoc. apply submseteq_app; [done|].
    assert (raw <$> new ⊆+ filter (λ out, ControlProgram out = s) outs) as Hsub.
    { destruct Hnew as [->|[_ ->]]; [apply submseteq_nil_l|].
      rewrite groupByScript_lookup, <- list_fmap_compose.
      rewrite (list_fmap_ext (raw ∘ annotate cp') id) by done.
      by rewrite list_fmap_id. }
    etrans; [apply submseteq_app; [exact Hsub|reflexivity]|].
    rewrite filter_disjoint_app.
    2:{ intros x Hx Hin. apply Hs. by rewrite <- Hx. }
    rewrite (list_filter_iff _ (λ out, ControlProgram out ∈ s :: order)); [done|].
    intros x. rewrite elem_of_cons. done.
Qed.

(** X3.  For any order in which the loop can visit the scripts, the outputs
    of the result, stripped of their annotation, are contained in the input
    as a multiset: no output is returned twice and none is made up; in
    particular the result is no longer than the input. *)
Theorem loadAccountInfo_submseteq (order : list string) (w : Wallet) (outs : list rawOutput) :
  rangeOrder (groupByScript outs) order →
  raw <$> loadAccountInfo Sum256 Unmarshal order w outs ⊆+ outs
  ∧ length (loadAccountInfo Sum256 Unmarshal order w outs) ≤ length outs.
Proof.
  intros [Hnd _].
  assert (raw <$> loadAccountInfo Sum256 Unmarshal order w outs ⊆+ outs) as Hsub.
  { unfold loadAccountInfo. etrans; [by apply resolveLoop_submseteq|].
    simpl. apply sublist_submseteq, sublist_filter. }
  split; [done|]. apply submseteq_length in Hsub. by rewrite length_fmap in Hsub.
Qed.

(** ** Upserts *)

Lemma upsert_all_ok (outs : list accountOutput) (b : legacy.Block) :
  (∀ ao, ao ∈ outs → ∃ rawUTXO, Marshal (utxoOf ao) = inl rawUTXO) →
  Forall2 (λ ao op, ∃ rawUTXO, Marshal (utxoOf ao) = inl rawUTXO
                               ∧ op = setOp (OutputID (raw ao)) rawUTXO)
          outs (upsertConfirmedAccountOutputs Marshal outs b []).1.
Proof.
  induction outs as [|out outs IH]; intros Hall; simpl; [constructor|].
  destruct (Hall out) as [rawUTXO Hm]; [left|]. rewrite Hm.
  rewrite upsert_shape. simpl. constructor; [by exists rawUTXO|].
  apply IH. intros ao Hao. apply Hall. by right.
Qed.

(** X4.  [upsertConfirmedAccountOutputs] returns an error exactly when some
    output of the list does not encode.  When it returns none, the batch is
    the batch it was handed followed by one [Set] per output, in order,
    each under the key of the output's id and with its encoding. *)
Theorem upsert_error_iff (outs : list accountOutput) (b : legacy.Block) (batch : list db.Op) :
  (is_Some (upsertConfirmedAccountOutputs Marshal outs b batch).2
   ↔ ∃ ao e, ao ∈ outs ∧ Marshal (utxoOf ao) = inr e)
  ∧ ((upsertConfirmedAccountOutputs Marshal outs b batch).2 = None →
     ∃ added, (upsertConfirmedAccountOutputs Marshal outs b batch).1 = batch ++ added
       ∧ Forall2 (λ ao op, ∃ rawUTXO, Marshal (utxoOf ao) = inl rawUTXO
                                      ∧ op = setOp (OutputID (raw ao)) rawUTXO)
                 outs added).
Proof.
  rewrite upsert_shape. simpl.
  assert ((∃ ao e, ao ∈ outs ∧ Marshal (utxoOf ao) = inr e)
          ∨ (∀ ao, ao ∈ outs → ∃ rawUTXO, Marshal (utxoOf ao) = inl rawUTXO)) as [Hbad|Hgood].
  { induction outs as [|out outs IH].
    - right. intros ao Hao. by apply elem_of_nil in Hao.
    - destruct (Marshal (utxoOf out)) as [v|e] eqn:Hm.
      + destruct IH as [(ao & e & Hao & He)|Hall].
        * left. exists ao, e. split; [by right|done].
        * right. intros ao [->|Hao]%elem_of_cons; eauto.
      + left. exists out, e. split; [left|done]. }
  - destruct Hbad as (ao & e & Hao & He).
    destruct (first_failure Marshal _ _ _ Hao He)
      as (pre & out' & e' & post & -> & Hpre & Hout').
    rewrite (upsert_fails Marshal pre post out' e' b [] Hpre Hout'). simpl.
    split; [|done]. split; [|by eexists].
    intros _. exists out', e'. split; [|done]. apply elem_of_app. right. left.
  - rewrite (upsert_ok Marshal outs b Hgood). split.
    + split; [by intros [? ?]|]. intros (ao & e & Hao & He).
      destruct (Hgood ao Hao) as [v Hv]. congruence.
    + intros _. eexists. split; [done|]. by apply upsert_all_ok.
Qed.

Lemma Write_last_set (ops1 ops2 : list db.Op) (k : account.Key) (v : string)
    (m : gmap account.Key string) :
  (∀ op, op ∈ ops2 → opKey op ≠ k) →
  db.Write (ops1 ++ db.Set_ k v :: ops2) m !! k = Some v.
Proof.
  intros Hlater. rewrite Write_app. simpl.
  rewrite Write_lookup_untouched by done. apply lookup_insert_eq.
Qed.

Lemma upsert_commit_last (pre post : list accountOutput) (out : accountOutput)
    (rawUTXO : string) (b : legacy.Block) (m : gmap account.Key string) :
  (∀ ao, ao ∈ pre ++ out :: post → ∃ v, Marshal (utxoOf ao) = inl v) →
  Marshal (utxoOf out) = inl rawUTXO →
  (∀ ao, ao ∈ post → OutputID (raw ao) ≠ OutputID (raw out)) →
  db.Write (upsertConfirmedAccountOutputs Marshal (pre ++ out :: post) b []).1 m
    !! account.AccountUTXOKey (OutputID (raw out)) = Some rawUTXO.
Proof.
  intros Hall Hout Hpost.
  pose proof (upsert_all_ok _ b Hall) as HF.
  apply Forall2_app_inv_l in HF as (ops1 & ops2' & _ & HF2 & ->).
  apply Forall2_cons_inv_l in HF2 as (op & ops2 & (v & Hv & ->) & HF2 & ->).
  rewrite Hout in Hv. injection Hv as <-.
  apply Write_last_set. intros op Hop Hk.
  apply list_elem_of_lookup in Hop as [i Hi].
  destruct (Forall2_lookup_r _ _ _ _ _ HF2 Hi) as (ao & Hao & v' & _ & ->).
  injection Hk as Hk. apply (Hpost ao); [|done].
  apply list_elem_of_lookup. by exists i.
Qed.

(** X5.  After a successful upsert is committed, on any store, the key of
    an output's id holds the encoding of the last output of the list with
    that id: a record that was there before, or an earlier output with the
    same id, is overwritten. *)
Theorem upsert_commit_lookup (pre post : list accountOutput) (out : accountOutput)
    (rawUTXO : string) (b : legacy.Block) (m : gmap account.Key string) :
  (∀ ao, ao ∈ pre ++ out :: post → ∃ v, Marshal (utxoOf ao) = inl v) →
  Marshal (utxoOf out) = inl rawUTXO →
  (∀ ao, ao ∈ post → OutputID (raw ao) ≠ OutputID (raw out)) →
  db.Write (upsertConfirmedAccountOutputs Marshal (pre ++ out :: post) b []).1 m
    !! account.AccountUTXOKey (OutputID (raw out)) = Some rawUTXO.
Proof.
  intros Hall Hout Hpost.
  pose proof (upsert_all_ok _ b Hall) as HF.
  apply Forall2_app_inv_l in HF as (ops1 & ops2' & _ & HF2 & ->).
  apply Forall2_cons_inv_l in HF2 as (op & ops2 & (v & Hv & ->) & HF2 & ->).
  rewrite Hout in Hv. injection Hv as <-.
  apply Write_last_set. intros op Hop Hk.
  apply list_elem_of_lookup in Hop as [i Hi].
  destruct (Forall2_lookup_r _ _ _ _ _ HF2 Hi) as (ao & Hao & v' & _ & ->).
  injection Hk as Hk. apply (Hpost ao); [|done].
  apply list_elem_of_lookup. by exists i.
Qed.

(** ** What the two entry points leave in the store *)

Lemma Write_keeps_other_families (ops : list db.Op) (store : gmap account.Key string) :
  (∀ op, op ∈ ops → ∃ id, opKey op = account.AccountUTXOKey id) →
  (∀ k, (∀ id, k ≠ account.AccountUTXOKey id) → db.Write ops store !! k = store !! k)
  ∧ ∀ order outs,
      loadAccountInfo Sum256 Unmarshal order {| DB := db.Write ops store |} outs
      = loadAccountInfo Sum256 Unmarshal order {| DB := store |} outs.
Proof.
  intros Hkeys.
  assert (∀ k, (∀ id, k ≠ account.AccountUTXOKey id) → db.Write ops store !! k = store !! k)
    as Hother.
  { intros k Hk. apply Write_lookup_untouched. intros op Hop Heq.
    destruct (Hkeys op Hop) as [id Hid]. apply (Hk id). congruence. }
  split; [exact Hother|]. intros order outs.
  apply loadAccountInfo_registry; intros x; simpl; by apply Hother.
Qed.

Lemma Reverse_returns (order : list string) (w : Wallet) (batch : list db.Op)
    (b : legacy.Block) (outs : list rawOutput) :
  newOuts (legacy.Transactions b) = Some outs →
  ∃ st dels,
    ReverseAccountUTXOs Sum256 Unmarshal Marshal order w batch b = Returns st
    ∧ wallet.batch st
      = batch ++ (upsertConfirmedAccountOutputs Marshal
                    (loadAccountInfo Sum256 Unmarshal order w
                       (reverseOuts (legacy.Transactions b))) b []).1 ++ dels
    ∧ (dels = [] ∨ (log st = [] ∧ dels = map (λ ro, delOp (OutputID ro)) outs))
    ∧ ((upsertConfirmedAccountOutputs Marshal
          (loadAccountInfo Sum256 Unmarshal order w
             (reverseOuts (legacy.Transactions b))) b []).2 = None →
       log st = [] ∧ dels = map (λ ro, delOp (OutputID ro)) outs).
Proof.
  intros Hnew.
  destruct (upsertConfirmedAccountOutputs Marshal
              (loadAccountInfo Sum256 Unmarshal order w
                 (reverseOuts (legacy.Transactions b))) b []).2 as [err|] eqn:Herr.
  - eexists _, []. split; [by apply Reverse_spec_err|]. simpl.
    rewrite app_nil_r. split; [done|]. split; [by left|done].
  - eexists _, _. split; [by apply (Reverse_spec_ok _ _ _ _ _ _ _ outs)|]. simpl.
    split; [done|]. split; [by right|done].
Qed.

(** X6.  Committing what [BuildAccountUTXOs] appended for a well-formed
    block changes no registry record and no account entry: every key
    outside the record family holds what it held, and ownership resolution
    on the committed store gives what it gave before. *)
Theorem Build_commit_keeps_registry (order : list string) (store : gmap account.Key string)
    (b : legacy.Block) :
  wellFormed b →
  ∃ st, BuildAccountUTXOs Sum256 Unmarshal Marshal order {| DB := store |} [] b = Returns st
    ∧ (∀ k, (∀ id, k ≠ account.AccountUTXOKey id) →
            db.Write (batch st) store !! k = store !! k)
    ∧ ∀ order' outs',
        loadAccountInfo Sum256 Unmarshal order' {| DB := db.Write (batch st) store |} outs'
        = loadAccountInfo Sum256 Unmarshal order' {| DB := store |} outs'.
Proof.
  intros Hwf. destruct (newOuts_total b Hwf) as [outs Hnew].
  destruct (Build_spec Sum256 Unmarshal Marshal order {| DB := store |} [] b outs Hnew)
    as [lg Hb].
  eexists. split; [exact Hb|]. apply Write_keeps_other_families. simpl.
  intros op [Hop|Hop]%elem_of_app.
  - apply delOps_keys in Hop as (_ & id & _ & ->). eauto.
  - apply Build_sets_created in Hop as (ro & _ & ->). eauto.
Qed.

(** X7.  The same for [ReverseAccountUTXOs]. *)
Theorem Reverse_commit_keeps_registry (order : list string) (store : gmap account.Key string)
    (b : legacy.Block) :
  wellFormed b →
  ∃ st, ReverseAccountUTXOs Sum256 Unmarshal Marshal order {| DB := store |} [] b = Returns st
    ∧ (∀ k, (∀ id, k ≠ account.AccountUTXOKey id) →
            db.Write (batch st) store !! k = store !! k)
    ∧ ∀ order' outs',
        loadAccountInfo Sum256 Unmarshal order' {| DB := db.Write (batch st) store |} outs'
        = loadAccountInfo Sum256 Unmarshal order' {| DB := store |} outs'.
Proof.
  intros Hwf. destruct (newOuts_total b Hwf) as [outs Hnew].
  destruct (Reverse_returns order {| DB := store |} [] b outs Hnew)
    as (st & dels & Hr & Hbatch & Hdels & _).
  exists st. split; [exact Hr|]. apply Write_keeps_other_families.
  rewrite Hbatch. simpl. intros op [Hop|Hop]%elem_of_app.
  - apply Reverse_sets_spent in Hop as (id & _ & ->). eauto.
  - destruct Hdels as [->|[_ ->]]; [by apply elem_of_nil in Hop|].
    apply list_elem_of_fmap in Hop as (ro & -> & _). eauto.
Qed.

(** X8.  [BuildAccountUTXOs] panics exactly on a block in which some
    transaction has more outputs than result ids, whatever the store, the
    batch and the order. *)
Theorem Build_panics_iff (order : list string) (w : Wallet) (batch : list db.Op)
    (b : legacy.Block) :
  BuildAccountUTXOs Sum256 Unmarshal Marshal order w batch b = Panics ↔ ¬ wellFormed b.
Proof.
  split.
  - intros Hp Hwf. destruct (newOuts_total b Hwf) as [outs Hnew].
    destruct (Build_spec Sum256 Unmarshal Marshal order w batch b outs Hnew) as [lg Hb].
    congruence.
  - intros Hnwf. unfold BuildAccountUTXOs.
    destruct (newOuts (legacy.Transactions b)) as [outs|] eqn:Hnew; [|done].
    destruct Hnwf. by apply (newOuts_Some_wellFormed b outs).
Qed.

(** X9.  [ReverseAccountUTXOs] panics exactly when the restored records all
    encode and some transaction has more outputs than result ids: when a
    restored record fails to encode it returns before the loop that indexes
    the result ids. *)
Theorem Reverse_panics_iff (order : list string) (w : Wallet) (batch : list db.Op)
    (b : legacy.Block) :
  ReverseAccountUTXOs Sum256 Unmarshal Marshal order w batch b = Panics
  ↔ ¬ wellFormed b
    ∧ ∀ ao, ao ∈ loadAccountInfo Sum256 Unmarshal order w (reverseOuts (legacy.Transactions b)) →
            ∃ rawUTXO, Marshal (utxoOf ao) = inl rawUTXO.
Proof.
  split.
  - intros Hp.
    destruct (upsertConfirmedAccountOutputs Marshal
                (loadAccountInfo Sum256 Unmarshal order w
                   (reverseOuts (legacy.Transactions b))) b []).2 as [err|] eqn:He.
    { rewrite (Reverse_spec_err Sum256 Unmarshal Marshal order w batch b err He) in Hp. done. }
    split.
    + intros Hwf. destruct (newOuts_total b Hwf) as [outs Hnew].
      rewrite (Reverse_spec_ok Sum256 Unmarshal Marshal order w batch b outs He Hnew) in Hp.
      done.
    + intros ao Hao. destruct (Marshal (utxoOf ao)) as [v|e] eqn:Hm; [eauto|].
      destruct (first_failure Marshal _ _ _ Hao Hm)
        as (pre & out' & e' & post & Hsplit & Hpre & Hout').
      rewrite Hsplit, (upsert_fails Marshal pre post out' e' b [] Hpre Hout') in He. done.
  - intros [Hnwf Hall]. unfold ReverseAccountUTXOs.
    rewrite upsert_shape, (upsert_ok Marshal _ b Hall), deleteNew_newOuts.
    destruct (newOuts (legacy.Transactions b)) as [outs|] eqn:Hnew; [|done].
    destruct Hnwf. by apply (newOuts_Some_wellFormed b outs).
Qed.

(** X10.  After confirmation of a block is committed, the key of every
    output id the block spends holds no record, unless the block also
    creates an output with that id for a tracked account. *)
Theorem Build_commit_spent_absent (order : list string) (store : gmap account.Key string)
    (b : legacy.Block) (outs : list rawOutput) (id : Hash) :
  newOuts (legacy.Transactions b) = Some outs →
  id ∈ prevoutDBKeys (legacy.Transactions b) →
  (∀ ao, ao ∈ loadAccountInfo Sum256 Unmarshal order {| DB := store |} outs →
         OutputID (raw ao) ≠ id) →
  ∃ st, BuildAccountUTXOs Sum256 Unmarshal Marshal order {| DB := store |} [] b = Returns st
    ∧ db.Write (batch st) store !! account.AccountUTXOKey id = None.
Proof.
  intros Hnew Hid Hnc.
  destruct (Build_spec Sum256 Unmarshal Marshal order {| DB := store |} [] b outs Hnew)
    as [lg Hb].
  eexists. split; [exact Hb|]. simpl. rewrite Write_app, Write_lookup_untouched.
  - apply Write_deletes_lookup.
    + intros op Hop. by apply delOps_keys in Hop as [? _].
    + by apply (list_elem_of_fmap_2 delOp).
  - intros op Hop Hk. apply upsert_ops in Hop as (ao & v & Hao & _ & ->).
    injection Hk as Hk. by apply (Hnc ao).
Qed.

(** X11.  After confirmation of a block is committed, the key of a created
    output that resolved to a tracked account holds its encoding (that of
    the last such output with this id), whatever the key held before and
    also when the block spends the same id: the deletes come first. *)
Theorem Build_commit_created_present (order : list string) (store : gmap account.Key string)
    (b : legacy.Block) (outs : list rawOutput) (pre post : list accountOutput)
    (ao : accountOutput) (rawUTXO : string) :
  newOuts (legacy.Transactions b) = Some outs →
  loadAccountInfo Sum256 Unmarshal order {| DB := store |} outs = pre ++ ao :: post →
  (∀ ao', ao' ∈ pre ++ ao :: post → ∃ v, Marshal (utxoOf ao') = inl v) →
  Marshal (utxoOf ao) = inl rawUTXO →
  (∀ ao', ao' ∈ post → OutputID (raw ao') ≠ OutputID (raw ao)) →
  ∃ st, BuildAccountUTXOs Sum256 Unmarshal Marshal order {| DB := store |} [] b = Returns st
    ∧ log st = []
    ∧ db.Write (batch st) store !! account.AccountUTXOKey (OutputID (raw ao)) = Some rawUTXO.
Proof.
  intros Hnew Hsplit Hall Hao Hpost.
  unfold BuildAccountUTXOs. rewrite Hnew, foldl_delete, Hsplit, upsert_shape.
  rewrite (upsert_ok Marshal _ b Hall). simpl.
  eexists. split; [done|]. split; [done|]. simpl.
  rewrite Write_app. by apply upsert_commit_last.
Qed.

(** X12.  After reversal of a block is committed, when the restored records
    encode: the key of every output the block creates holds no record; and
    the key of a restored output that the block does not create holds its
    encoding (that of the last restored output with this id). *)
Theorem Reverse_commit_lookup (order : list string) (store : gmap account.Key string)
    (b : legacy.Block) (outs : list rawOutput) :
  newOuts (legacy.Transactions b) = Some outs →
  (∀ ao, ao ∈ loadAccountInfo Sum256 Unmarshal order {| DB := store |}
                (reverseOuts (legacy.Transactions b)) →
         ∃ v, Marshal (utxoOf ao) = inl v) →
  ∃ st, ReverseAccountUTXOs Sum256 Unmarshal Marshal order {| DB := store |} [] b = Returns st
    ∧ log st = []
    ∧ (∀ ro, ro ∈ outs →
             db.Write (batch st) store !! account.AccountUTXOKey (OutputID ro) = None)
    ∧ ∀ pre ao post rawUTXO,
        loadAccountInfo Sum256 Unmarshal order {| DB := store |}
          (reverseOuts (legacy.Transactions b)) = pre ++ ao :: post →
        Marshal (utxoOf ao) = inl rawUTXO →
        (∀ ao', ao' ∈ post → OutputID (raw ao') ≠ OutputID (raw ao)) →
        (∀ ro, ro ∈ outs → OutputID ro ≠ OutputID (raw ao)) →
        db.Write (batch st) store !! account.AccountUTXOKey (OutputID (raw ao))
        = Some rawUTXO.
Proof.
  intros Hnew Hall.
  pose proof (upsert_ok Marshal _ b Hall) as Hok.
  rewrite (Reverse_spec_ok Sum256 Unmarshal Marshal order {| DB := store |} [] b outs Hok Hnew).
  eexists. split; [done|]. split; [done|]. simpl. split.
  - intros ro Hro. rewrite Write_app. apply Write_deletes_lookup.
    + intros op Hop. by apply list_elem_of_fmap in Hop as (ro' & -> & _).
    + by apply (list_elem_of_fmap_2 (λ ro, delOp (OutputID ro))).
  - intros pre ao post rawUTXO Hsplit Hao Hpost Hnc.
    rewrite Write_app, Write_lookup_untouched.
    + rewrite Hsplit. apply upsert_commit_last; [|done|done].
      by rewrite <- Hsplit.
    + intros op Hop Hk. apply list_elem_of_fmap in Hop as (ro & -> & Hro).
      injection Hk as Hk. by apply (Hnc ro).
Qed.

(** X15.  The persisted record does not depend on the transaction an output
    was extracted from nor on its position: the output reversal extracts
    for a spent id and the output confirmation extracted when the id was
    created give the same record under the same annotation, when the
    spending transaction holds the same output entry and the created
    output carried the value and the script of that entry. *)
Theorem reverseOut_same_record (tx tx' : legacy.Tx) (j : nat) (out : legacy.TxOutput)
    (inpID id : Hash) (resOut : bc.Output) (cp : account.CtrlProgram) :
  bc.Entries (legacy.bcTx tx') !! inpID = Some (bc.SpendEntry {| bc.SpentOutputId := id |}) →
  bc.Entries (legacy.bcTx tx') !! id = Some (bc.OutputEntry resOut) →
  legacy.AssetAmount out = bc.Value (bc.Source resOut) →
  legacy.ControlProgram out = bc.Code (bc.ControlProgram resOut) →
  ∃ ro, reverseOut tx' inpID = Some ro
    ∧ OutputID ro = id
    ∧ utxoOf (annotate cp ro) = utxoOf (annotate cp (newOut tx j out id resOut)).
Proof.
  intros Hsp Hent Hval Hprog. unfold reverseOut, bc.Tx_Spend. rewrite Hsp. simpl.
  rewrite Hent. eexists. split; [done|]. split; [done|].
  unfold utxoOf, newOut. simpl. by rewrite Hval, Hprog.
Qed.

End indexer_more.

(** * Further properties of the projection *)

(** X16.  A [Bool] survives encoding and decoding, and neither step reports
    an error; what the receiver held before decoding does not matter. *)
Theorem Bool_roundtrip (b old : bool) :
  (projection.Bool_MarshalJSON b).2 = None
  ∧ projection.Bool_UnmarshalJSON old (projection.Bool_MarshalJSON b).1 = (b, None).
Proof. by destruct b. Qed.


Section projection_more.

Variable IsUnspendable : string → bool.
Variable Unmarshal : string → option error.
Variable Time : legacy.Block → Z.
Variable BlockHash : legacy.Block → Hash.
Variable Height : legacy.Block → Z.

(** X18.  The output loop of the projection panics exactly when the
    transaction has more outputs than result ids; otherwise the annotated
    output at each position carries that position, the result id at that
    position, and the asset and amount of the output there, and no account
    annotation. *)
Theorem annotatedOutputs_positions (tx : legacy.Tx) :
  (query.annotatedOutputs IsUnspendable Unmarshal tx = None
   ↔ length (bc.ResultIds (legacy.bcTx tx)) < length (legacy.Outputs tx))
  ∧ ∀ outs idx out,
      query.annotatedOutputs IsUnspendable Unmarshal tx = Some outs →
      outs !! idx = Some out →
      ∃ orig, legacy.Outputs tx !! idx = Some orig
        ∧ bc.ResultIds (legacy.bcTx tx) !! idx = Some (query.OutputID out)
        ∧ query.Position out = Z.of_nat idx
        ∧ query.AssetID out = bc.AssetId (legacy.AssetAmount orig)
        ∧ query.Amount out = bc.Amount (legacy.AssetAmount orig)
        ∧ query.AccountID out = EmptyString
        ∧ query.TransactionID out = None.
Proof.
  unfold query.annotatedOutputs. split.
  - split.
    + intros Hnone. apply Nat.nle_gt. intros Hlen.
      destruct (mapM_is_Some_2 (query.buildAnnotatedOutput IsUnspendable Unmarshal tx)
                  (seq 0 (length (legacy.Outputs tx)))) as [outs Hsome]; [|congruence].
      apply Forall_forall. intros idx Hidx. apply elem_of_seq in Hidx as [_ Hidx].
      simpl in Hidx.
      destruct (lookup_lt_is_Some_2 (legacy.Outputs tx) idx Hidx) as [orig Horig].
      destruct (buildAnnotatedOutput_spec IsUnspendable Unmarshal tx idx orig Horig)
        as (out & Hb & _); [lia|].
      exists out. exact Hb.
    + intros Hlt.
      destruct (mapM _ _) as [outs|] eqn:Hm; [|done]. exfalso.
      apply mapM_Some_1 in Hm.
      assert (seq 0 (length (legacy.Outputs tx))
                !! length (bc.ResultIds (legacy.bcTx tx))
              = Some (length (bc.ResultIds (legacy.bcTx tx)))) as Hseq
        by (apply lookup_seq; lia).
      destruct (Forall2_lookup_l _ _ _ _ _ Hm Hseq) as (out & _ & Hb).
      unfold query.buildAnnotatedOutput, legacy.OutputID in Hb.
      rewrite (lookup_ge_None_2 (bc.ResultIds (legacy.bcTx tx))) in Hb by lia.
      destruct (legacy.Outputs tx !! _); done.
  - intros outs idx out Hm Hout. apply mapM_Some_1 in Hm.
    destruct (Forall2_lookup_r _ _ _ _ _ Hm Hout) as (i & Hi & Hb).
    apply lookup_seq in Hi as [-> _]. simpl in Hb.
    unfold query.buildAnnotatedOutput, legacy.OutputID in Hb.
    destruct (legacy.Outputs tx !! idx) as [orig|]; [|done]. simpl in Hb.
    destruct (bc.ResultIds (legacy.bcTx tx) !! idx) as [outid|]; [|done]. simpl in Hb.
    injection Hb as <-. exists orig.
    destruct (query.IsValidJSON Unmarshal (legacy.ReferenceData orig)); simpl;
      destruct (IsUnspendable (legacy.ControlProgram orig)); done.
Qed.

Lemma buildAnnotatedInput_Some (tx : projection.Tx) (i : nat) (orig : projection.TxInput)
    (id : Hash) :
  projection.Inputs tx !! i = Some orig →
  bc.InputIDs (legacy.bcTx (projection.legacyTx tx)) !! i = Some id →
  ∃ in_, projection.buildAnnotatedInput Unmarshal tx (Z.of_nat i) = Some in_
    ∧ projection.AssetID in_ = projection.inAssetID orig
    ∧ projection.Amount in_ = projection.inAmount orig
    ∧ projection.InReferenceData in_
      = (if query.IsValidJSON Unmarshal (projection.inReferenceData orig)
         then Some (projection.inReferenceData orig) else Some query.emptyJSONObject)
    ∧ projection.SpentOutputID in_
      = match bc.Tx_Spend (legacy.bcTx (projection.legacyTx tx)) id with
        | inl sp => Some (bc.SpentOutputId sp)
        | inr _ => None
        end
    ∧ projection.Type_ in_
      = match bc.Entries (legacy.bcTx (projection.legacyTx tx)) !! id with
        | Some (bc.SpendEntry _) => "spend"
        | Some bc.IssuanceEntry => "issue"
        | _ => EmptyString
        end.
Proof.
  intros Horig Hid. unfold projection.buildAnnotatedInput, bc.Tx_Spend.
  rewrite Nat2Z.id, Horig, Hid. simpl.
  eexists. split; [done|].
  destruct (query.IsValidJSON Unmarshal (projection.inReferenceData orig));
    destruct (bc.Entries (legacy.bcTx (projection.legacyTx tx)) !! id) as [[| | | |]|];
    done.
Qed.

(** X19.  [buildAnnotatedInput] panics exactly when the index is not below
    the number of inputs and of input ids.  Otherwise the annotated input
    has type spend exactly when the entry under its input id is a spend,
    and then carries the id of the spent output; type issue exactly when
    the entry is an issuance; and an empty type, with no spent output id,
    when the entry is missing or of another variant. *)
Theorem buildAnnotatedInput_classifies (tx : projection.Tx) (i : nat) :
  (projection.buildAnnotatedInput Unmarshal tx (Z.of_nat i) = None
   ↔ length (projection.Inputs tx) ≤ i
     ∨ length (bc.InputIDs (legacy.bcTx (projection.legacyTx tx))) ≤ i)
  ∧ ∀ in_ id,
      projection.buildAnnotatedInput Unmarshal tx (Z.of_nat i) = Some in_ →
      bc.InputIDs (legacy.bcTx (projection.legacyTx tx)) !! i = Some id →
      let e := bc.Entries (legacy.bcTx (projection.legacyTx tx)) !! id in
      (projection.Type_ in_ = "spend" ↔ ∃ sp, e = Some (bc.SpendEntry sp))
      ∧ (projection.Type_ in_ = "issue" ↔ e = Some bc.IssuanceEntry)
      ∧ (projection.Type_ in_ = EmptyString
         ↔ (∀ sp, e ≠ Some (bc.SpendEntry sp)) ∧ e ≠ Some bc.IssuanceEntry)
      ∧ (∀ spent, projection.SpentOutputID in_ = Some spent
                  ↔ e = Some (bc.SpendEntry {| bc.SpentOutputId := spent |})).
Proof.
  split.
  - destruct (projection.Inputs tx !! i) as [orig|] eqn:Horig.
    + destruct (bc.InputIDs (legacy.bcTx (projection.legacyTx tx)) !! i) as [id|] eqn:Hid.
      * destruct (buildAnnotatedInput_Some tx i orig id Horig Hid) as (in_ & -> & _).
        apply lookup_lt_Some in Horig, Hid. split; [done|lia].
      * unfold projection.buildAnnotatedInput. rewrite Nat2Z.id, Horig, Hid. simpl.
        apply lookup_ge_None in Hid. split; [by right|done].
    + unfold projection.buildAnnotatedInput. rewrite Nat2Z.id, Horig. simpl.
      apply lookup_ge_None in Horig. split; [by left|done].
  - intros in_ id Hb Hid. simpl.
    destruct (projection.Inputs tx !! i) as [orig|] eqn:Horig.
    2:{ unfold projection.buildAnnotatedInput in Hb. by rewrite Nat2Z.id, Horig in Hb. }
    destruct (buildAnnotatedInput_Some tx i orig id Horig Hid)
      as (in' & Hb' & _ & _ & _ & Hsp & Hty).
    rewrite Hb in Hb'. injection Hb' as <-. rewrite Hty, Hsp. unfold bc.Tx_Spend.
    destruct (bc.Entries (legacy.bcTx (projection.legacyTx tx)) !! id) as [[o|[sid]| | |]|];
      repeat split; try done; try (by intros [? ?]); try (by intros [_ ?]);
      try (by intros [H _]; destruct (H _ eq_refl)); try (by eexists);
      try (intros; congruence).
    + simpl. intros [= <-]. done.
    + intros [= <-]. done.
Qed.

Lemma uint32_small (i : nat) : (Z.of_nat i < 2 ^ 32)%Z → uint32 i = Z.of_nat i.
Proof. intros Hi. unfold uint32. apply Z.mod_small. lia. Qed.

Lemma annotatedOutputs_total (tx : legacy.Tx) :
  length (legacy.Outputs tx) ≤ length (bc.ResultIds (legacy.bcTx tx)) →
  is_Some (query.annotatedOutputs IsUnspendable Unmarshal tx).
Proof.
  intros Hlen. apply mapM_is_Some_2, Forall_forall.
  intros idx Hidx. apply elem_of_seq in Hidx as [_ Hidx]. simpl in Hidx.
  destruct (lookup_lt_is_Some_2 (legacy.Outputs tx) idx Hidx) as [orig Horig].
  destruct (buildAnnotatedOutput_spec IsUnspendable Unmarshal tx idx orig Horig)
    as (out & Hb & _); [lia|].
  exists out. exact Hb.
Qed.

Lemma omap_Forall2 {A B C : Type} (f : A → option C) (g : B → option C)
    (l : list A) (k : list B) :
  Forall2 (λ a b, f a = g b) l k → omap f l = omap g k.
Proof.
  induction 1 as [|a b l k Hab _ IH]; simpl; [done|].
  rewrite Hab. destruct (g b); [f_equal|]; apply IH.
Qed.

Lemma annotatedInputs_Some (tx : projection.Tx) :
  length (projection.Inputs tx) ≤ length (bc.InputIDs (legacy.bcTx (projection.legacyTx tx))) →
  (Z.of_nat (length (projection.Inputs tx)) ≤ 2 ^ 32)%Z →
  ∃ inputs,
    mapM (λ i, projection.buildAnnotatedInput Unmarshal tx (uint32 i))
         (seq 0 (length (projection.Inputs tx))) = Some inputs
    ∧ length inputs = length (projection.Inputs tx)
    ∧ ∀ i in_, inputs !! i = Some in_ →
               projection.buildAnnotatedInput Unmarshal tx (Z.of_nat i) = Some in_.
Proof.
  intros Hlen H32.
  destruct (mapM_is_Some_2 (λ i, projection.buildAnnotatedInput Unmarshal tx (uint32 i))
              (seq 0 (length (projection.Inputs tx)))) as [inputs Hm].
  { apply Forall_forall. intros i Hi. apply elem_of_seq in Hi as [_ Hi]. simpl in Hi.
    destruct (lookup_lt_is_Some_2 (projection.Inputs tx) i Hi) as [orig Horig].
    destruct (lookup_lt_is_Some_2 (bc.InputIDs (legacy.bcTx (projection.legacyTx tx))) i)
      as [id Hid]; [lia|].
    destruct (buildAnnotatedInput_Some tx i orig id Horig Hid) as (in_ & Hb & _).
    exists in_. simpl. rewrite uint32_small by lia. exact Hb. }
  exists inputs. split; [done|]. apply mapM_Some_1 in Hm.
  split; [by rewrite <- (Forall2_length _ _ _ Hm), length_seq|].
  intros i in_ Hin.
  destruct (Forall2_lookup_r _ _ _ _ _ Hm Hin) as (i' & Hi' & Hb).
  apply lookup_seq in Hi' as [-> Hlt]. simpl in Hb.
  by rewrite uint32_small in Hb by lia.
Qed.


(** X20.  For a transaction with as many input ids as inputs, the spent
    output ids carried by its annotated inputs are, in order, exactly the
    ids whose keys the indexer deletes for this transaction. *)
Theorem annotated_spends_are_prevouts (orig : projection.Tx) (b : legacy.Block)
    (indexInBlock : Z) :
  length (projection.Inputs orig)
    = length (bc.InputIDs (legacy.bcTx (projection.legacyTx orig))) →
  (Z.of_nat (length (projection.Inputs orig)) ≤ 2 ^ 32)%Z →
  length (legacy.Outputs (projection.legacyTx orig))
    ≤ length (bc.ResultIds (legacy.bcTx (projection.legacyTx orig))) →
  ∃ atx,
    projection.BuildAnnotatedTransaction IsUnspendable Unmarshal Time BlockHash Height
      orig b indexInBlock = Some atx
    ∧ omap projection.SpentOutputID (projection.AnnotatedInputs atx)
      = prevoutDBKeys [projection.legacyTx orig].
Proof.
  intros Hin H32 Hout.
  destruct (annotatedInputs_Some orig) as (inputs & Hmi & Hli & Hi); [lia|done|].
  destruct (annotatedOutputs_total (projection.legacyTx orig) Hout) as [outputs Hmo].
  unfold query.annotatedOutputs in Hmo.
  unfold projection.BuildAnnotatedTransaction. rewrite Hmi, Hmo. simpl.
  eexists. split; [done|]. simpl. rewrite app_nil_r.
  apply omap_Forall2, Forall2_same_length_lookup_2; [congruence|].
  intros i in_ id Hlook Hid.
  destruct (lookup_lt_is_Some_2 (projection.Inputs orig) i) as [o Ho].
  { apply lookup_lt_Some in Hlook. lia. }
  destruct (buildAnnotatedInput_Some orig i o id Ho Hid) as (in' & Hb & _ & _ & _ & Hsp & _).
  rewrite (Hi i in_ Hlook) in Hb. injection Hb as <-. exact Hsp.
Qed.

End projection_more.

(** ** Instances of the further properties *)

Lemma Marshal_total (ao : accountOutput) : ∃ v, ex.Marshal (utxoOf ao) = inl v.
Proof. eexists. reflexivity. Defined.

Lemma Unmarshal_recFull_resolves (cp0 : account.CtrlProgram) :
  ∃ cp1, ex.Unmarshal ex.recFull cp0 = (cp1, None)
         ∧ is_Some (DB ex.w !! account.AccountKey (account.cpAccountID cp1)).
Proof. exists ex.cpFull. split; [reflexivity|]. vm_compute. eauto. Defined.

Lemma loadAccountInfo_complete_witness :
  rangeOrder (groupByScript [ex.o1; ex.o5]) ["s1"]
  ∧ ex.o1 ∈ [ex.o1; ex.o5]
  ∧ DB ex.w !! account.AccountCPKey (ex.Sum256 (ControlProgram ex.o1)) = Some ex.recFull
  ∧ (∀ cp0, ∃ cp1, ex.Unmarshal ex.recFull cp0 = (cp1, None)
                   ∧ is_Some (DB ex.w !! account.AccountKey (account.cpAccountID cp1)))
  ∧ ∃ ao, ao ∈ loadAccountInfo ex.Sum256 ex.Unmarshal ["s1"] ex.w [ex.o1; ex.o5]
          ∧ raw ao = ex.o1.
Proof.
  assert (rangeOrder (groupByScript [ex.o1; ex.o5]) ["s1"]) as Hord by compute_done.
  assert (ex.o1 ∈ [ex.o1; ex.o5]) as Hin by left.
  split; [exact Hord|]. split; [exact Hin|]. split; [reflexivity|].
  split; [exact Unmarshal_recFull_resolves|].
  exact (loadAccountInfo_complete ex.Sum256 ex.Unmarshal ["s1"] ex.w [ex.o1; ex.o5]
           ex.o1 ex.recFull Hord Hin eq_refl Unmarshal_recFull_resolves).
Defined.

Lemma loadAccountInfo_submseteq_witness :
  rangeOrder (groupByScript [ex.o1; ex.o2]) ["s2"; "s1"]
  ∧ raw <$> loadAccountInfo ex.Sum256 ex.Unmarshal ["s2"; "s1"] ex.w [ex.o1; ex.o2]
    ⊆+ [ex.o1; ex.o2]
  ∧ length (loadAccountInfo ex.Sum256 ex.Unmarshal ["s2"; "s1"] ex.w [ex.o1; ex.o2])
    ≤ length [ex.o1; ex.o2].
Proof.
  assert (rangeOrder (groupByScript [ex.o1; ex.o2]) ["s2"; "s1"]) as Hord by compute_done.
  split; [exact Hord|].
  exact (loadAccountInfo_submseteq ex.Sum256 ex.Unmarshal ["s2"; "s1"] ex.w
           [ex.o1; ex.o2] Hord).
Defined.

Lemma upsert_commit_lookup_witness :
  (∀ ao, ao ∈ [] ++ annotate ex.cpFull ex.o1 :: [] → ∃ v, ex.Marshal (utxoOf ao) = inl v)
  ∧ ex.Marshal (utxoOf (annotate ex.cpFull ex.o1)) = inl "o1,acc1,5,true"
  ∧ (∀ ao, ao ∈ [] → OutputID (raw ao) ≠ OutputID (raw (annotate ex.cpFull ex.o1)))
  ∧ db.Write (upsertConfirmedAccountOutputs ex.Marshal
                ([] ++ annotate ex.cpFull ex.o1 :: []) ex.block3 []).1 ex.storeLocal
      !! account.AccountUTXOKey (OutputID (raw (annotate ex.cpFull ex.o1)))
    = Some "o1,acc1,5,true".
Proof.
  assert (∀ ao, ao ∈ [] ++ annotate ex.cpFull ex.o1 :: [] →
                ∃ v, ex.Marshal (utxoOf ao) = inl v) as Hall
    by (intros ao _; apply Marshal_total).
  assert (∀ ao : accountOutput, ao ∈ [] →
            OutputID (raw ao) ≠ OutputID (raw (annotate ex.cpFull ex.o1))) as Hpost
    by (intros ao Hao; by apply elem_of_nil in Hao).
  split; [exact Hall|]. split; [reflexivity|]. split; [exact Hpost|].
  exact (upsert_commit_lookup ex.Marshal [] [] (annotate ex.cpFull ex.o1) _ ex.block3
           ex.storeLocal Hall eq_refl Hpost).
Defined.

Lemma Build_commit_keeps_registry_witness :
  wellFormed ex.block2
  ∧ ∃ st, BuildAccountUTXOs ex.Sum256 ex.Unmarshal ex.Marshal ["s2"]
            {| DB := ex.registry |} [] ex.block2 = Returns st
      ∧ (∀ k, (∀ id, k ≠ account.AccountUTXOKey id) →
              db.Write (batch st) ex.registry !! k = ex.registry !! k)
      ∧ ∀ order' outs',
          loadAccountInfo ex.Sum256 ex.Unmarshal order'
            {| DB := db.Write (batch st) ex.registry |} outs'
          = loadAccountInfo ex.Sum256 ex.Unmarshal order' {| DB := ex.registry |} outs'.
Proof.
  split; [exact wellFormed_block2|].
  exact (Build_commit_keeps_registry ex.Sum256 ex.Unmarshal ex.Marshal ["s2"]
           ex.registry ex.block2 wellFormed_block2).
Defined.

Lemma Reverse_commit_keeps_registry_witness :
  wellFormed ex.block2
  ∧ ∃ st, ReverseAccountUTXOs ex.Sum256 ex.Unmarshal ex.Marshal ["s1"]
            {| DB := ex.registry |} [] ex.block2 = Returns st
      ∧ (∀ k, (∀ id, k ≠ account.AccountUTXOKey id) →
              db.Write (batch st) ex.registry !! k = ex.registry !! k)
      ∧ ∀ order' outs',
          loadAccountInfo ex.Sum256 ex.Unmarshal order'
            {| DB := db.Write (batch st) ex.registry |} outs'
          = loadAccountInfo ex.Sum256 ex.Unmarshal order' {| DB := ex.registry |} outs'.
Proof.
  split; [exact wellFormed_block2|].
  exact (Reverse_commit_keeps_registry ex.Sum256 ex.Unmarshal ex.Marshal ["s1"]
           ex.registry ex.block2 wellFormed_block2).
Defined.

Lemma Build_commit_spent_absent_witness :
  newOuts (legacy.Transactions ex.block2) = Some [ex.rawOut "o2" "s2" "t2" 0]
  ∧ "o1" ∈ prevoutDBKeys (legacy.Transactions ex.block2)
  ∧ (∀ ao, ao ∈ loadAccountInfo ex.Sum256 ex.Unmarshal ["s2"] {| DB := ex.storeLocal |}
                  [ex.rawOut "o2" "s2" "t2" 0] →
           OutputID (raw ao) ≠ "o1")
  ∧ ∃ st, BuildAccountUTXOs ex.Sum256 ex.Unmarshal ex.Marshal ["s2"]
            {| DB := ex.storeLocal |} [] ex.block2 = Returns st
      ∧ db.Write (batch st) ex.storeLocal !! account.AccountUTXOKey "o1" = None.
Proof.
  assert ("o1" ∈ prevoutDBKeys (legacy.Transactions ex.block2)) as Hid by (vm_compute; left).
  assert (∀ ao, ao ∈ loadAccountInfo ex.Sum256 ex.Unmarshal ["s2"] {| DB := ex.storeLocal |}
                       [ex.rawOut "o2" "s2" "t2" 0] →
                OutputID (raw ao) ≠ "o1") as Hnc.
  { intros ao Hao. vm_compute in Hao. apply list_elem_of_singleton in Hao as ->. done. }
  split; [reflexivity|]. split; [exact Hid|]. split; [exact Hnc|].
  exact (Build_commit_spent_absent ex.Sum256 ex.Unmarshal ex.Marshal ["s2"] ex.storeLocal
           ex.block2 _ "o1" eq_refl Hid Hnc).
Defined.

Lemma Build_commit_created_present_witness :
  newOuts (legacy.Transactions ex.block1) = Some [ex.rawOut "o1" "s1" "t1" 0]
  ∧ loadAccountInfo ex.Sum256 ex.Unmarshal ["s1"] {| DB := ex.storeLocal |}
      [ex.rawOut "o1" "s1" "t1" 0]
    = [] ++ annotate ex.cpFull (ex.rawOut "o1" "s1" "t1" 0) :: []
  ∧ (∀ ao', ao' ∈ [] ++ annotate ex.cpFull (ex.rawOut "o1" "s1" "t1" 0) :: [] →
            ∃ v, ex.Marshal (utxoOf ao') = inl v)
  ∧ ex.Marshal (utxoOf (annotate ex.cpFull (ex.rawOut "o1" "s1" "t1" 0)))
    = inl "o1,acc1,5,true"
  ∧ (∀ ao', ao' ∈ [] →
            OutputID (raw ao')
            ≠ OutputID (raw (annotate ex.cpFull (ex.rawOut "o1" "s1" "t1" 0))))
  ∧ ∃ st, BuildAccountUTXOs ex.Sum256 ex.Unmarshal ex.Marshal ["s1"]
            {| DB := ex.storeLocal |} [] ex.block1 = Returns st
      ∧ log st = []
      ∧ db.Write (batch st) ex.storeLocal
          !! account.AccountUTXOKey
               (OutputID (raw (annotate ex.cpFull (ex.rawOut "o1" "s1" "t1" 0))))
        = Some "o1,acc1,5,true".
Proof.
  assert (∀ ao', ao' ∈ [] ++ annotate ex.cpFull (ex.rawOut "o1" "s1" "t1" 0) :: [] →
                 ∃ v, ex.Marshal (utxoOf ao') = inl v) as Hall
    by (intros ao _; apply Marshal_total).
  assert (∀ ao' : accountOutput, ao' ∈ [] →
            OutputID (raw ao')
            ≠ OutputID (raw (annotate ex.cpFull (ex.rawOut "o1" "s1" "t1" 0)))) as Hpost
    by (intros ao Hao; by apply elem_of_nil in Hao).
  split; [reflexivity|]. split; [reflexivity|]. split; [exact Hall|].
  split; [reflexivity|]. split; [exact Hpost|].
  exact (Build_commit_created_present ex.Sum256 ex.Unmarshal ex.Marshal ["s1"]
           ex.storeLocal ex.block1 _ [] [] _ _ eq_refl eq_refl Hall eq_refl Hpost).
Defined.

Lemma Reverse_commit_lookup_witness :
  newOuts (legacy.Transactions ex.block2) = Some [ex.rawOut "o2" "s2" "t2" 0]
  ∧ (∀ ao, ao ∈ loadAccountInfo ex.Sum256 ex.Unmarshal ["s1"] {| DB := ex.registry |}
                  (reverseOuts (legacy.Transactions ex.block2)) →
           ∃ v, ex.Marshal (utxoOf ao) = inl v)
  ∧ ∃ st, ReverseAccountUTXOs ex.Sum256 ex.Unmarshal ex.Marshal ["s1"]
            {| DB := ex.registry |} [] ex.block2 = Returns st
      ∧ log st = []
      ∧ (∀ ro, ro ∈ [ex.rawOut "o2" "s2" "t2" 0] →
               db.Write (batch st) ex.registry !! account.AccountUTXOKey (OutputID ro) = None)
      ∧ ∀ pre ao post rawUTXO,
          loadAccountInfo ex.Sum256 ex.Unmarshal ["s1"] {| DB := ex.registry |}
            (reverseOuts (legacy.Transactions ex.block2)) = pre ++ ao :: post →
          ex.Marshal (utxoOf ao) = inl rawUTXO →
          (∀ ao', ao' ∈ post → OutputID (raw ao') ≠ OutputID (raw ao)) →
          (∀ ro, ro ∈ [ex.rawOut "o2" "s2" "t2" 0] → OutputID ro ≠ OutputID (raw ao)) →
          db.Write (batch st) ex.registry !! account.AccountUTXOKey (OutputID (raw ao))
          = Some rawUTXO.
Proof.
  assert (∀ ao, ao ∈ loadAccountInfo ex.Sum256 ex.Unmarshal ["s1"] {| DB := ex.registry |}
                       (reverseOuts (legacy.Transactions ex.block2)) →
                ∃ v, ex.Marshal (utxoOf ao) = inl v) as Hall
    by (intros ao _; apply Marshal_total).
  split; [reflexivity|]. split; [exact Hall|].
  exact (Reverse_commit_lookup ex.Sum256 ex.Unmarshal ex.Marshal ["s1"] ex.registry
           ex.block2 _ eq_refl Hall).
Defined.

Lemma Build_twice_same_order_witness :
  wellFormed ex.block2
  ∧ ∃ st,
      BuildAccountUTXOs ex.Sum256 ex.Unmarshal ex.Marshal ["s2"] {| DB := ex.registry |} []
        ex.block2 = Returns st
      ∧ BuildAccountUTXOs ex.Sum256 ex.Unmarshal ex.Marshal ["s2"]
          {| DB := db.Write (batch st) ex.registry |} [] ex.block2 = Returns st
      ∧ db.Write (batch st) (db.Write (batch st) ex.registry)
        = db.Write (batch st) ex.registry.
Proof.
  split; [exact wellFormed_block2|].
  exact (Build_twice_same_order ex.Sum256 ex.Unmarshal ex.Marshal ["s2"] ex.registry
           ex.block2 wellFormed_block2).
Defined.

Lemma loadAccountInfo_isolated_complete_record_witness :
  DB ex.w !! account.AccountCPKey (ex.Sum256 "s1") = Some ex.recFull
  ∧ (∀ cp cp', ex.Unmarshal ex.recFull cp = ex.Unmarshal ex.recFull cp')
  ∧ annotate ex.cpFull ex.o1 ∈ loadAccountInfo ex.Sum256 ex.Unmarshal ["s1"] ex.w [ex.o1]
  ∧ annotate ex.cpFull ex.o1
      ∈ loadAccountInfo ex.Sum256 ex.Unmarshal ["s2"; "s1"] ex.w [ex.o1; ex.o2]
  ∧ ControlProgram (raw (annotate ex.cpFull ex.o1)) = "s1"
  ∧ (AccountID (annotate ex.cpFull ex.o1) = AccountID (annotate ex.cpFull ex.o1)
     ∧ keyIndex (annotate ex.cpFull ex.o1) = keyIndex (annotate ex.cpFull ex.o1)
     ∧ change (annotate ex.cpFull ex.o1) = change (annotate ex.cpFull ex.o1)).
Proof.
  assert (∀ cp cp', ex.Unmarshal ex.recFull cp = ex.Unmarshal ex.recFull cp') as Hind
    by (intros cp cp'; reflexivity).
  assert (annotate ex.cpFull ex.o1
            ∈ loadAccountInfo ex.Sum256 ex.Unmarshal ["s1"] ex.w [ex.o1]) as H1
    by (vm_compute; left).
  assert (annotate ex.cpFull ex.o1
            ∈ loadAccountInfo ex.Sum256 ex.Unmarshal ["s2"; "s1"] ex.w [ex.o1; ex.o2]) as H2
    by (vm_compute; right; left).
  split; [reflexivity|]. split; [exact Hind|]. split; [exact H1|]. split; [exact H2|].
  split; [reflexivity|].
  exact (loadAccountInfo_isolated_complete_record ex.Sum256 ex.Unmarshal
           ["s1"] ["s2"; "s1"] ex.w ex.w [ex.o1] [ex.o1; ex.o2] "s1" ex.recFull _ _
           eq_refl eq_refl Hind H1 H2 eq_refl eq_refl).
Defined.

Lemma reverseOut_same_record_witness :
  bc.Entries (legacy.bcTx ex.tx2) !! "i1"
    = Some (bc.SpendEntry {| bc.SpentOutputId := "o1" |})
  ∧ bc.Entries (legacy.bcTx ex.tx2) !! "o1" = Some (bc.OutputEntry (ex.entryOut "s1"))
  ∧ legacy.AssetAmount (ex.txOut "s1") = bc.Value (bc.Source (ex.entryOut "s1"))
  ∧ legacy.ControlProgram (ex.txOut "s1") = bc.Code (bc.ControlProgram (ex.entryOut "s1"))
  ∧ ∃ ro, reverseOut ex.tx2 "i1" = Some ro
      ∧ OutputID ro = "o1"
      ∧ utxoOf (annotate ex.cpFull ro)
        = utxoOf (annotate ex.cpFull
                    (newOut ex.tx1 0 (ex.txOut "s1") "o1" (ex.entryOut "s1"))).
Proof.
  split; [reflexivity|]. split; [reflexivity|]. split; [reflexivity|]. split; [reflexivity|].
  exact (reverseOut_same_record ex.tx1 ex.tx2 0 (ex.txOut "s1") "i1" "o1"
           (ex.entryOut "s1") ex.cpFull eq_refl eq_refl eq_refl eq_refl).
Defined.


Lemma annotated_spends_are_prevouts_witness :
  length (projection.Inputs ex2.tx2)
    = length (bc.InputIDs (legacy.bcTx (projection.legacyTx ex2.tx2)))
  ∧ (Z.of_nat (length (projection.Inputs ex2.tx2)) ≤ 2 ^ 32)%Z
  ∧ length (legacy.Outputs (projection.legacyTx ex2.tx2))
      ≤ length (bc.ResultIds (legacy.bcTx (projection.legacyTx ex2.tx2)))
  ∧ ∃ atx,
      projection.BuildAnnotatedTransaction ex.IsUnspendable ex.UnmarshalAny
        ex2.Time ex2.BlockHash ex2.Height ex2.tx2 ex.block2 0 = Some atx
      ∧ omap projection.SpentOutputID (projection.AnnotatedInputs atx)
        = prevoutDBKeys [projection.legacyTx ex2.tx2].
Proof.
  assert (Z.of_nat (length (projection.Inputs ex2.tx2)) ≤ 2 ^ 32)%Z as H2 by (simpl; lia).
  assert (length (legacy.Outputs (projection.legacyTx ex2.tx2))
            ≤ length (bc.ResultIds (legacy.bcTx (projection.legacyTx ex2.tx2)))) as H3
    by (simpl; lia).
  split; [reflexivity|]. split; [exact H2|]. split; [exact H3|].
  exact (annotated_spends_are_prevouts ex.IsUnspendable ex.UnmarshalAny
           ex2.Time ex2.BlockHash ex2.Height ex2.tx2 ex.block2 0 eq_refl H2 H3).
Defined.

(** * Confirmation followed by reversal, with the restored records *)

Section roundtrip.

Variable Sum256 : string → string.
Variable Unmarshal : string → account.CtrlProgram → account.CtrlProgram * option error.
Variable Marshal : account.UTXO → string + error.

Lemma Write_all_same (ops : list db.Op) (m : gmap account.Key string) (k : account.Key)
    (v : string) :
  db.Set_ k v ∈ ops →
  (∀ op, op ∈ ops → opKey op = k → op = db.Set_ k v) →
  db.Write ops m !! k = Some v.
Proof.
  induction ops as [|op ops IH] using rev_ind; intros Hin Hall.
  - by apply elem_of_nil in Hin.
  - rewrite Write_app. simpl.
    destruct (decide (opKey op = k)) as [Hk|Hk].
    + rewrite (Hall op); [|apply elem_of_app; right; left|done]. simpl.
      apply lookup_insert_eq.
    + assert (db.Write ops m !! k = Some v) as Hrec.
      { apply IH.
        - apply elem_of_app in Hin as [Hin|Hin]; [done|].
          apply list_elem_of_singleton in Hin. by subst op.
        - intros op' Hop'. apply Hall, elem_of_app. by left. }
      destruct op as [k' v'|k']; simpl in *.
      * by rewrite lookup_insert_ne.
      * by rewrite lookup_delete_ne.
Qed.

(** What reversal extracts for an input is the output entry stored under
    the id its spend entry names; its record is the record of that entry. *)
Lemma reverseOut_inv (tx : legacy.Tx) (inpID : Hash) (ro : rawOutput) :
  reverseOut tx inpID = Some ro →
  ∃ resOut,
    bc.Entries (legacy.bcTx tx) !! OutputID ro = Some (bc.OutputEntry resOut)
    ∧ ControlProgram ro = bc.Code (bc.ControlProgram resOut)
    ∧ ∀ cp, utxoOf (annotate cp ro) = recordOf (OutputID ro) resOut cp.
Proof.
  unfold reverseOut. intros Hro.
  destruct (bc.Tx_Spend (legacy.bcTx tx) inpID) as [sp|e]; [|done].
  destruct (bc.Entries (legacy.bcTx tx) !! bc.SpentOutputId sp) as [[resOut| | | |]|] eqn:Hent;
    try done.
  injection Hro as <-. exists resOut. done.
Qed.

Lemma reverseOut_entry (tx : legacy.Tx) (inpID id : Hash) (resOut : bc.Output) :
  bc.Entries (legacy.bcTx tx) !! inpID = Some (bc.SpendEntry {| bc.SpentOutputId := id |}) →
  bc.Entries (legacy.bcTx tx) !! id = Some (bc.OutputEntry resOut) →
  ∃ ro, reverseOut tx inpID = Some ro ∧ OutputID ro = id
        ∧ ControlProgram ro = bc.Code (bc.ControlProgram resOut).
Proof.
  intros Hsp Hent. unfold reverseOut, bc.Tx_Spend. rewrite Hsp. simpl. rewrite Hent.
  eexists. done.
Qed.

(** C1, as it holds of the code.  Confirmation of a well-formed block
    committed to the store, then reversal of the same block committed on
    top, for any iteration orders.  A key the block neither spends nor
    creates holds what it held before.  When the restored records encode,
    no key of a created output holds a record, also one that held a record
    before confirmation.  A key the block spends and does not create holds
    exactly what the restoring stage of reversal wrote for it, starting
    from nothing.  And the record such a key held before confirmation is
    there again, unchanged, when it is the encoding of the spent output as
    the block's output entry describes it, owned as the registry record of
    its script says: a record that decodes to the same [cp] whatever [cp]
    held, of an account that exists; the order of reversal being one in
    which the loop can visit the scripts. *)
Theorem Reverse_after_Build (order1 order2 : list string) (store : gmap account.Key string)
    (b : legacy.Block) :
  wellFormed b →
  ∃ outs st1 st2,
    newOuts (legacy.Transactions b) = Some outs
    ∧ BuildAccountUTXOs Sum256 Unmarshal Marshal order1 {| DB := store |} [] b = Returns st1
    ∧ ReverseAccountUTXOs Sum256 Unmarshal Marshal order2
        {| DB := db.Write (batch st1) store |} [] b = Returns st2
    ∧ let store1 := db.Write (batch st1) store in
      let store2 := db.Write (batch st2) store1 in
      let restored :=
        loadAccountInfo Sum256 Unmarshal order2 {| DB := store1 |}
          (reverseOuts (legacy.Transactions b)) in
      (∀ k, (∀ id, id ∈ prevoutDBKeys (legacy.Transactions b) → k ≠ account.AccountUTXOKey id) →
            (∀ ro, ro ∈ outs → k ≠ account.AccountUTXOKey (OutputID ro)) →
            store2 !! k = store !! k)
      ∧ ((∀ ao, ao ∈ restored → ∃ rawUTXO, Marshal (utxoOf ao) = inl rawUTXO) →
         log st2 = []
         ∧ ∀ ro, ro ∈ outs → store2 !! account.AccountUTXOKey (OutputID ro) = None)
      ∧ (∀ id, id ∈ prevoutDBKeys (legacy.Transactions b) →
               (∀ ro, ro ∈ outs → OutputID ro ≠ id) →
               store2 !! account.AccountUTXOKey id
               = db.Write (upsertConfirmedAccountOutputs Marshal restored b []).1 ∅
                   !! account.AccountUTXOKey id)
      ∧ (∀ tx inpID id resOut bytes cp1 rawUTXO,
           tx ∈ legacy.Transactions b →
           inpID ∈ bc.InputIDs (legacy.bcTx tx) →
           bc.Entries (legacy.bcTx tx) !! inpID
             = Some (bc.SpendEntry {| bc.SpentOutputId := id |}) →
           bc.Entries (legacy.bcTx tx) !! id = Some (bc.OutputEntry resOut) →
           (∀ tx' e, tx' ∈ legacy.Transactions b →
                     bc.Entries (legacy.bcTx tx') !! id = Some (bc.OutputEntry e) →
                     e = resOut) →
           store !! account.AccountCPKey (Sum256 (bc.Code (bc.ControlProgram resOut)))
             = Some bytes →
           (∀ cp0, Unmarshal bytes cp0 = (cp1, None)) →
           is_Some (store !! account.AccountKey (account.cpAccountID cp1)) →
           Marshal (recordOf id resOut cp1) = inl rawUTXO →
           store !! account.AccountUTXOKey id = Some rawUTXO →
           rangeOrder (groupByScript (reverseOuts (legacy.Transactions b))) order2 →
           (∀ ao, ao ∈ restored → ∃ v, Marshal (utxoOf ao) = inl v) →
           (∀ ro, ro ∈ outs → OutputID ro ≠ id) →
           store2 !! account.AccountUTXOKey id = store !! account.AccountUTXOKey id).
Proof.
  intros Hwf.
  destruct (Reverse_after_Build_keys Sum256 Unmarshal Marshal order1 order2 store b Hwf)
    as (outs & st1 & st2 & Hnew & Hb & Hr & H1 & H2 & H3).
  exists outs, st1, st2. split; [done|]. split; [done|]. split; [done|].
  split; [exact H1|]. split; [exact H2|]. split; [exact H3|].
  intros tx inpID id resOut bytes cp1 rawUTXO Htx Hinp Hsp Hent Hca Hrec Hdec Hacc Henc
    Hstore [_ Hdom] Hall Hnc.
  set (store1 := db.Write (batch st1) store) in *.
  set (restored := loadAccountInfo Sum256 Unmarshal order2 {| DB := store1 |}
                     (reverseOuts (legacy.Transactions b))) in *.
  (* the registry and the accounts are those of the store *)
  assert (∀ k, (∀ id', k ≠ account.AccountUTXOKey id') → store1 !! k = store !! k) as Hreg.
  { destruct (Build_spec Sum256 Unmarshal Marshal order1 {| DB := store |} [] b outs Hnew)
      as [lg Hb'].
    rewrite Hb in Hb'. injection Hb' as Hst. unfold store1. rewrite Hst. simpl.
    apply (Write_keeps_other_families Sum256 Unmarshal).
    intros op [Hop|Hop]%elem_of_app.
    - apply delOps_keys in Hop as (_ & id' & _ & ->). eauto.
    - apply (Build_sets_created Sum256 Unmarshal Marshal) in Hop as (ro & _ & ->). eauto. }
  (* every restored output with this id encodes to the record the store held *)
  assert (∀ ao, ao ∈ restored → OutputID (raw ao) = id →
                utxoOf ao = recordOf id resOut cp1) as Hsame.
  { intros ao Hao Hid.
    destruct (loadAccountInfo_provenance Sum256 Unmarshal _ _ _ _ Hao)
      as (cp0 & cp1' & (bytes' & Hrec' & Hdec' & _) & Hraw & Hann).
    apply elem_of_flat_map in Hraw as (tx' & Htx' & Hraw).
    apply list_elem_of_omap in Hraw as (inp' & _ & Hro).
    destruct (reverseOut_inv tx' inp' (raw ao) Hro) as (resOut' & Hent' & Hcode & Hutxo).
    rewrite Hid in Hent'. rewrite (Hca tx' resOut' Htx' Hent') in Hcode, Hutxo.
    simpl in Hrec'. rewrite Hcode, Hreg, Hrec in Hrec' by done. injection Hrec' as <-.
    rewrite Hdec in Hdec'. injection Hdec' as <-.
    rewrite Hann, Hutxo, Hid. done. }
  (* the spent output is among the restored *)
  destruct (reverseOut_entry tx inpID id resOut Hsp Hent) as (ro & Hro & Hroid & Hrocode).
  assert (ro ∈ reverseOuts (legacy.Transactions b)) as Hroin.
  { apply elem_of_flat_map. exists tx. split; [done|].
    apply list_elem_of_omap. by exists inpID. }
  assert (∃ ao, ao ∈ restored ∧ raw ao = ro) as (ao & Hao & Hraw).
  { unfold restored, loadAccountInfo.
    assert (ro ∈ default [] (groupByScript (reverseOuts (legacy.Transactions b))
                               !! ControlProgram ro)) as Hgrp
      by by apply groupByScript_elem.
    apply (resolveLoop_complete Sum256 Unmarshal _ _ _ _ _ (ControlProgram ro) bytes).
    - apply (elem_of_list_to_set (C := gset string)). rewrite Hdom. apply elem_of_dom.
      destruct (groupByScript (reverseOuts (legacy.Transactions b)) !! ControlProgram ro);
        [done|]. by apply elem_of_nil in Hgrp.
    - simpl. rewrite Hrocode, Hreg by done. exact Hrec.
    - intros cp0. exists cp1. split; [apply Hdec|]. simpl. by rewrite Hreg.
    - exact Hgrp. }
  assert (id ∈ prevoutDBKeys (legacy.Transactions b)) as Hid.
  { apply prevoutDBKeys_elem. exists tx, inpID, {| bc.SpentOutputId := id |}.
    unfold bc.Tx_Spend. by rewrite Hsp. }
  rewrite (H3 id Hid Hnc), Hstore. apply Write_all_same.
  - pose proof (upsert_all_ok Marshal restored b Hall) as HF.
    apply list_elem_of_lookup in Hao as [i Hi].
    destruct (Forall2_lookup_l _ _ _ _ _ HF Hi) as (op & Hop & v & Hv & ->).
    rewrite (Hsame ao) in Hv.
    + rewrite Henc in Hv. injection Hv as <-. rewrite Hraw, Hroid in Hop.
      apply list_elem_of_lookup. by exists i.
    + apply list_elem_of_lookup. by exists i.
    + by rewrite Hraw.
  - intros op Hop Hk.
    apply (upsert_ops Marshal) in Hop as (ao' & v & Hao' & Hv & ->).
    injection Hk as Hk. rewrite (Hsame ao' Hao' Hk), Henc in Hv.
    injection Hv as <-. by rewrite Hk.
Qed.

End roundtrip.

Lemma Reverse_after_Build_witness :
  wellFormed ex.block2
  ∧ ex3.storeSpent !! account.AccountUTXOKey "o1" = Some "o1,acc1,5,true"
  ∧ ex.Marshal (recordOf "o1" (ex.entryOut "s1") ex.cpFull) = inl "o1,acc1,5,true"
  ∧ ∃ outs st1 st2,
      newOuts (legacy.Transactions ex.block2) = Some outs
      ∧ BuildAccountUTXOs ex.Sum256 ex.Unmarshal ex.Marshal ["s2"] {| DB := ex3.storeSpent |} []
          ex.block2 = Returns st1
      ∧ ReverseAccountUTXOs ex.Sum256 ex.Unmarshal ex.Marshal ["s1"]
          {| DB := db.Write (batch st1) ex3.storeSpent |} [] ex.block2 = Returns st2
      ∧ db.Write (batch st1) ex3.storeSpent !! account.AccountUTXOKey "o1" = None
      ∧ db.Write (batch st2) (db.Write (batch st1) ex3.storeSpent)
          !! account.AccountUTXOKey "o1"
        = ex3.storeSpent !! account.AccountUTXOKey "o1"
      ∧ ∀ ro, ro ∈ outs →
              db.Write (batch st2) (db.Write (batch st1) ex3.storeSpent)
                !! account.AccountUTXOKey (OutputID ro) = None.
Proof.
  split; [exact wellFormed_block2|]. split; [reflexivity|]. split; [reflexivity|].
  destruct (Reverse_after_Build ex.Sum256 ex.Unmarshal ex.Marshal ["s2"] ["s1"]
              ex3.storeSpent ex.block2 wellFormed_block2)
    as (outs & st1 & st2 & Hnew & Hb & Hr & _ & H2 & _ & H4).
  exists outs, st1, st2. split; [exact Hnew|]. split; [exact Hb|]. split; [exact Hr|].
  assert (∀ ao, ao ∈ loadAccountInfo ex.Sum256 ex.Unmarshal ["s1"]
                       {| DB := db.Write (batch st1) ex3.storeSpent |}
                       (reverseOuts (legacy.Transactions ex.block2)) →
                ∃ v, ex.Marshal (utxoOf ao) = inl v) as Hall
    by (intros ao _; apply Marshal_total).
  split; [|split].
  - assert (Returns st1 = Returns ex3.st2) as Hst by (rewrite <- Hb; reflexivity).
    injection Hst as ->. reflexivity.
  - apply (H4 ex.tx2 "i1" "o1" (ex.entryOut "s1") ex.recFull ex.cpFull "o1,acc1,5,true").
    + left.
    + left.
    + reflexivity.
    + reflexivity.
    + intros tx' e Htx' He. apply list_elem_of_singleton in Htx' as ->.
      assert (bc.Entries (legacy.bcTx ex.tx2) !! "o1"
              = Some (bc.OutputEntry (ex.entryOut "s1"))) as He' by reflexivity.
      congruence.
    + reflexivity.
    + intros cp0. reflexivity.
    + vm_compute. eauto.
    + reflexivity.
    + reflexivity.
    + compute_done.
    + exact Hall.
    + intros ro Hro. vm_compute in Hnew. injection Hnew as <-.
      apply list_elem_of_singleton in Hro as ->. done.
  - exact (proj2 (H2 Hall)).
Defined.
